(** * Sealed-bid auction front end: bid sealing and auction lifecycle

    A shallow embedding of the JavaScript sources of the auction DApp
    ([utils/arciumEncryption.js], [utils/helpers.js], [App.jsx] and the
    components [AuctionCreator], [BidSubmission], [AuctionCard],
    [WinnerReveal]) together with the properties its specification states
    about them.

    Conventions of the embedding.
    - A [Uint8Array] is a [list Z]; writing an element wraps modulo 256
      ([Uint8.store]); reading past the end gives [undefined], which the
      bitwise operators read as 0 ([Uint8.get]).
    - A [BigInt] is a [Z].
    - A JavaScript [number] is an IEEE-754 binary64 value, [spec_float],
      compared with the IEEE comparisons [SFltb] and [SFleb].
    - A function that may [throw] returns a [completion].
    - Values the environment hands to the code ([crypto.getRandomValues],
      [crypto.randomUUID], [Date.now], the wallet) are explicit arguments. *)

From Stdlib Require Import String ZArith List Sorted Bool Lia.
From Stdlib Require Import Floats.SpecFloat.
From Equations Require Import Equations.
Import ListNotations.

Local Open Scope Z_scope.

(* ===================================================================== *)
(** ** JavaScript values used by the sources                              *)
(* ===================================================================== *)

Module JS.

(** An error message: a template literal is a sequence of text and
    substituted numbers, [`Bid must be at least ${minimumBid} SOL`]. *)
Inductive fragment : Type :=
| Text (s : string)
| Subst (x : spec_float).
Definition message := list fragment.

(** Normal return or [throw new Error(message)]. *)
Inductive completion (A : Type) : Type :=
| Return (a : A)
| Throw (m : message).
Arguments Return {A} a.
Arguments Throw {A} m.

Definition bind {A B} (c : completion A) (k : A -> completion B) : completion B :=
  match c with
  | Return a => k a
  | Throw m => Throw m
  end.

(** [number]: binary64. *)
Definition number := spec_float.

Definition prec : Z := 53.
Definition emax : Z := 1024.

(** The literal of a non-negative integer that binary64 represents. *)
Definition lit (n : Z) : number := binary_normalize prec emax n 0 false.
(** [m * 2^e] rounded to binary64, for literals such as [0.5]. *)
Definition lit2 (m e : Z) : number := binary_normalize prec emax m e false.

Definition zero : number := S754_zero false.

Definition isNaN (x : number) : bool :=
  match x with S754_nan => true | _ => false end.

(** [x < y], [x <= y], [x > y] on numbers. *)
Definition lt (x y : number) : bool := SFltb x y.
Definition le (x y : number) : bool := SFleb x y.
Definition gt (x y : number) : bool := SFltb y x.

(** [x * y]. *)
Definition mul (x y : number) : number := SFmul prec emax x y.

(** [BigInt(Math.floor(x))]: the integer part towards minus infinity;
    [BigInt] throws a RangeError on NaN and on the infinities, whose
    message names the number. *)
Definition BigInt_floor (x : number) : completion Z :=
  match x with
  | S754_zero _ => Return 0
  | S754_finite s m e =>
      let z := cond_Zopp s (Zpos m) in
      Return (if 0 <=? e then z * 2 ^ e else z / 2 ^ (- e))
  | S754_infinity _ | S754_nan =>
      Throw [Text "The number "; Subst x;
             Text " cannot be converted to a BigInt because it is not an integer"]
  end.

(** The values a dynamically typed argument may hold, as far as the
    sources test them with [typeof]. *)
Inductive value : Type :=
| VNumber (x : number)
| VString (s : string)
| VUndefined.

End JS.

(* ===================================================================== *)
(** ** Uint8Array                                                         *)
(* ===================================================================== *)

Module Uint8.

Definition store (x : Z) : Z := x mod 256.

Definition get (a : list Z) (i : nat) : Z := nth i a 0.

(** The contents of a [Uint8Array]. *)
Definition bytes (a : list Z) : Prop := Forall (fun b => 0 <= b < 256) a.

(** [for (let i = 0; i < n; i++) a[i] = f(i)] on a fresh array of length [n]. *)
Definition fill (n : nat) (f : nat -> Z) : list Z :=
  map (fun i => store (f i)) (seq 0 n).

End Uint8.

(* ===================================================================== *)
(** ** utils/arciumEncryption.js                                          *)
(* ===================================================================== *)

Module ArciumEncryption.
Import JS.

Record Keypair := { privateKey : list Z; publicKey : list Z }.

(** [generateX25519Keypair]; [entropy] is what [crypto.getRandomValues]
    wrote into the 32-byte private key. *)
Definition generateX25519Keypair (entropy : list Z) : Keypair :=
  let privateKey := Uint8.fill 32 (fun i => Uint8.get entropy i) in
  let publicKey :=
    Uint8.fill 32 (fun i => (Uint8.get privateKey i * 9 + 121) mod 256) in
  {| privateKey := privateKey; publicKey := publicKey |}.

(** [performKeyExchange(privateKey, publicKey)]. *)
Definition performKeyExchange (privateKey publicKey : list Z) : list Z :=
  Uint8.fill 32
    (fun i => Z.lxor (Uint8.get privateKey i) (Uint8.get publicKey i) mod 256).

(** Termination measure of the loop below: the bit length of [num]. *)
Definition bit_length (num : Z) : nat := Z.to_nat (Z.log2 (2 * num)).

(** The [while (num > 0n)] loop of [bigIntToBytes]: [bytes.push(num % 256n)]
    then [num = num / 256n]. *)
Equations bigIntToBytes_loop (num : Z) (bytes : list Z) : list Z
  by wf (bit_length num) Nat.lt :=
  bigIntToBytes_loop num bytes with Z_lt_dec 0 num := {
    | left Hpos => bigIntToBytes_loop (num / 256) (bytes ++ [num mod 256]);
    | right _ => bytes }.
Next Obligation.
  unfold bit_length.
  apply Z2Nat.inj_lt; try apply Z.log2_nonneg.
  destruct (Z.eq_dec (num / 256) 0) as [E | E].
  - rewrite E. change (Z.log2 (2 * 0)) with 0. apply Z.log2_pos. lia.
  - assert (0 < num / 256) by (pose proof (Z.div_pos num 256); lia).
    apply Z.log2_lt_pow2; [lia |].
    pose proof (Z.log2_spec (2 * num)).
    assert (256 * (num / 256) <= num) by (apply Z.mul_div_le; lia).
    replace (2 ^ Z.succ (Z.log2 (2 * num))) with (2 * 2 ^ Z.log2 (2 * num)) in *
      by (rewrite Z.pow_succ_r; [reflexivity | apply Z.log2_nonneg]).
    lia.
Defined.

(** [bigIntToBytes(value)]: [new Uint8Array(bytes.reverse())]. *)
Definition bigIntToBytes (value : Z) : list Z :=
  map Uint8.store (rev (bigIntToBytes_loop value [])).

(** [bytesToBigInt(bytes)]: [result = (result << 8n) + BigInt(bytes[i])]. *)
Definition bytesToBigInt (bytes : list Z) : Z :=
  fold_left (fun result b => Z.shiftl result 8 + b) bytes 0.

(** [class SimplifiedRescueCipher]: the constructor stores the key. *)
Record SimplifiedRescueCipher := { key : list Z }.

(** [encrypt(plaintext, nonce)]; [plaintext] is a bigint at the call
    site ([encryptBid] passes [BigInt(...)]), so [value] is [plaintext]. *)
Definition encrypt (this : SimplifiedRescueCipher) (plaintext : Z)
    (nonce : list Z) : list Z :=
  let value := plaintext in
  let valueBytes := bigIntToBytes value in
  Uint8.fill 32 (fun i =>
    let plainByte :=
      if (i <? length valueBytes)%nat then Uint8.get valueBytes i else 0 in
    Z.lxor (Z.lxor plainByte (Uint8.get (key this) i))
           (Uint8.get nonce (i mod length nonce)) mod 256).

(** The 32 plaintext bytes that [encrypt] masks: [plainByte] for each
    index of the block. *)
Definition plainBytes (value : Z) : list Z :=
  let valueBytes := bigIntToBytes value in
  map (fun i => if (i <? length valueBytes)%nat
                then Uint8.get valueBytes i else 0) (seq 0 32).

(** [decrypt(ciphertext, nonce)]. *)
Definition decrypt (this : SimplifiedRescueCipher) (ciphertext nonce : list Z) : Z :=
  let plaintext :=
    Uint8.fill 32 (fun i =>
      Z.lxor (Z.lxor (Uint8.get ciphertext i) (Uint8.get (key this) i))
             (Uint8.get nonce (i mod length nonce)) mod 256) in
  bytesToBigInt plaintext.

(** [getMXEPublicKey]: the mock cluster key. *)
Definition getMXEPublicKey : list Z :=
  Uint8.fill 32 (fun i => (Z.of_nat i * 7 + 42) mod 256).

Record Metadata := { algorithm : string; meta_timestamp : Z; version : string }.

Record EncryptedBid := {
  enc_ciphertext : list Z;
  enc_publicKey : list Z;
  enc_nonce : list Z;
  metadata : Metadata }.

(** What [encryptBid] draws from the environment. *)
Record Entropy := {
  keyEntropy : list Z;      (* crypto.getRandomValues(privateKey) *)
  nonceEntropy : list Z;    (* crypto.getRandomValues(nonce)      *)
  clock : Z }.              (* Date.now()                          *)

(** [encryptBid(bidAmount, mxePublicKey = null)]. *)
Definition encryptBid (env : Entropy) (bidAmount : Z)
    (mxePublicKey : option (list Z)) : EncryptedBid :=
  let mxePublicKey :=
    match mxePublicKey with Some k => k | None => getMXEPublicKey end in
  let kp := generateX25519Keypair (keyEntropy env) in
  let sharedSecret := performKeyExchange (privateKey kp) mxePublicKey in
  let cipher := {| key := sharedSecret |} in
  let nonce := Uint8.fill 16 (fun i => Uint8.get (nonceEntropy env) i) in
  let ciphertext := encrypt cipher bidAmount nonce in
  {| enc_ciphertext := ciphertext;
     enc_publicKey := publicKey kp;
     enc_nonce := nonce;
     metadata := {| algorithm := "x25519-Rescue";
                    meta_timestamp := clock env;
                    version := "1.0.0" |} |}.

(** [decryptResult(ciphertext, nonce, mxePublicKey, userPrivateKey)];
    [new Uint8Array(array)] wraps every element. *)
Definition decryptResult (ciphertext nonce mxePublicKey userPrivateKey : list Z) : Z :=
  let sharedSecret := performKeyExchange userPrivateKey mxePublicKey in
  let cipher := {| key := sharedSecret |} in
  let ciphertextArray := map Uint8.store ciphertext in
  let nonceArray := map Uint8.store nonce in
  decrypt cipher ciphertextArray nonceArray.

(** [verifyEncryption(encryptedData)]. *)
Definition verifyEncryption (e : EncryptedBid) : bool :=
  (length (enc_ciphertext e) =? 32)%nat
  && (length (enc_publicKey e) =? 32)%nat
  && (length (enc_nonce e) =? 16)%nat.

End ArciumEncryption.

(* ===================================================================== *)
(** ** The auction and bid objects                                        *)
(* ===================================================================== *)

Module Data.
Import JS.

(** The object built by [BidSubmission.handleSubmit]. *)
Record Bid := {
  bid_id : string;
  bidder : string;
  amount : number;
  ciphertext : list Z;
  bid_publicKey : list Z;
  nonce : list Z;
  timestamp : Z }.

(** [status] is ['active'] or ['finalized']. *)
Inductive Status : Type := active | finalized.

Definition Status_eqb (a b : Status) : bool :=
  match a, b with
  | active, active | finalized, finalized => true
  | _, _ => false
  end.

(** The object built by [AuctionCreator.handleSubmit]; the fields that a
    later assignment or update adds are optional. *)
Record Auction := {
  id : string;
  creator : string;
  itemName : string;
  description : string;
  minimumBid : number;
  endTime : Z;
  bids : list Bid;
  status : Status;
  createdAt : Z;
  onChainSignature : option string;
  auctionPDA : option string;
  arciumMxePubkey : option (list Z);
  winner : option string;
  winningBid : option number }.

(** The [updates] objects passed to [onUpdateAuction]. *)
Record Updates := {
  u_bids : option (list Bid);
  u_status : option Status;
  u_winner : option string;
  u_winningBid : option number }.

(** [{ bids: updatedBids }] and [{ status: 'finalized', winner, winningBid }]. *)
Definition bid_update (updatedBids : list Bid) : Updates :=
  {| u_bids := Some updatedBids; u_status := None;
     u_winner := None; u_winningBid := None |}.

Definition finalize_update (winner : string) (winningBid : number) : Updates :=
  {| u_bids := None; u_status := Some finalized;
     u_winner := Some winner; u_winningBid := Some winningBid |}.

Definition override {A} (old : A) (new : option A) : A :=
  match new with Some x => x | None => old end.

Definition override_opt {A} (old new : option A) : option A :=
  match new with Some x => Some x | None => old end.

(** [{ ...auction, ...updates }]. *)
Definition spread (auction : Auction) (updates : Updates) : Auction :=
  {| id := id auction;
     creator := creator auction;
     itemName := itemName auction;
     description := description auction;
     minimumBid := minimumBid auction;
     endTime := endTime auction;
     bids := override (bids auction) (u_bids updates);
     status := override (status auction) (u_status updates);
     createdAt := createdAt auction;
     onChainSignature := onChainSignature auction;
     auctionPDA := auctionPDA auction;
     arciumMxePubkey := arciumMxePubkey auction;
     winner := override_opt (winner auction) (u_winner updates);
     winningBid := override_opt (winningBid auction) (u_winningBid updates) |}.


(** The winner field is set exactly when the status is ['finalized']. *)
Definition winner_iff_finalized (auction : Auction) : Prop :=
  winner auction <> None <-> status auction = finalized.

End Data.

(* ===================================================================== *)
(** ** utils/helpers.js                                                   *)
(* ===================================================================== *)

Module Helpers.
Import JS Data.

(** [validateBid(amount, minimumBid)]. *)
Definition validateBid (amount : value) (minimumBid : number) : completion bool :=
  match amount with
  | VNumber amount =>
      if isNaN amount then Throw [Text "Bid amount must be a valid number"]
      else if le amount zero then Throw [Text "Bid amount must be greater than 0"]
      else if lt amount minimumBid then
        Throw [Text "Bid must be at least "; Subst minimumBid; Text " SOL"]
      else Return true
  | _ => Throw [Text "Bid amount must be a valid number"]
  end.

(** The three conditions on an amount that the documentation of
    [validateBid] names. *)
Definition valid_number (amount : value) : Prop :=
  exists x, amount = VNumber x /\ isNaN x = false.

Definition strictly_positive (amount : value) : Prop :=
  exists x, amount = VNumber x /\ lt zero x = true.

Definition less_than (amount : value) (minimumBid : number) : Prop :=
  exists x, amount = VNumber x /\ lt x minimumBid = true.

(** [isAuctionActive], [isAuctionEnded], [isAuctionFinalized];
    [now] is [Date.now()]. *)
Definition isAuctionActive (now : Z) (auction : Auction) : bool :=
  (now <? endTime auction) && negb (Status_eqb (status auction) finalized).

Definition isAuctionEnded (now : Z) (auction : Auction) : bool :=
  endTime auction <=? now.

Definition isAuctionFinalized (auction : Auction) : bool :=
  Status_eqb (status auction) finalized.

(** [String.prototype.slice(start, end)] on the code units of a string:
    a negative index counts from the end, an index past the end is the
    end, and an empty range gives the empty string. *)
Definition slice_index (len k : Z) : Z :=
  if k <? 0 then Z.max (len + k) 0 else Z.min k len.

Definition slice (str : string) (start finish : Z) : string :=
  let len := Z.of_nat (String.length str) in
  let from := slice_index len start in
  let to := slice_index len finish in
  substring (Z.to_nat from) (Z.to_nat (Z.max (to - from) 0)) str.

(** [str.slice(start)]: the end is the length. *)
Definition slice_from (str : string) (start : Z) : string :=
  slice str start (Z.of_nat (String.length str)).

(** [truncateString(str, maxLength, suffix = '...')]. *)
Definition truncateString (str : string) (maxLength : Z) (suffix : string) : string :=
  if Z.of_nat (String.length str) <=? maxLength then str
  else (slice str 0 (maxLength - Z.of_nat (String.length suffix)) ++ suffix)%string.

(** [formatAddress(address, startChars = 4, endChars = 4)]. *)
Definition formatAddress (address : string) (startChars endChars : Z) : string :=
  if Z.of_nat (String.length address) <=? startChars + endChars then address
  else (slice address 0 startChars ++ "..." ++ slice_from address (- endChars))%string.

End Helpers.

(* ===================================================================== *)
(** ** App.jsx: the auction store                                         *)
(* ===================================================================== *)

Module App.
Import JS Data.

(** [handleCreateAuction] and [handleUpdateAuction] read the [auctions]
    of the render that created them and pass the result to
    [setAuctions] (and to [localStorage]); the result is returned. *)
Definition handleCreateAuction (auctions : list Auction) (newAuction : Auction)
    : list Auction :=
  auctions ++ [newAuction].

Definition handleUpdateAuction (auctions : list Auction) (auctionId : string)
    (updates : Updates) : list Auction :=
  map (fun auction =>
         if String.eqb (id auction) auctionId then spread auction updates
         else auction)
      auctions.

End App.

(* ===================================================================== *)
(** ** components/AuctionCreator.jsx                                      *)
(* ===================================================================== *)

(** The component as it deploys the auction on chain before it hands the
    [newAuction] object to the store. *)

Module AuctionCreator.
Import JS Data.

(** [formData], with what [parseFloat(formData.minimumBid)] and
    [new Date(formData.endTime).getTime()] evaluate to. *)
Record FormData := {
  f_itemName : string;
  f_description : string;
  f_minimumBid : string;
  f_endTime : string;
  parsed_minimumBid : number;
  parsed_endTime : Z }.

(** The white space and line terminators that [trim] strips. A string
    holds its text in UTF-8. In one byte: U+0009 to U+000D and U+0020;
    a byte 160 that stands alone is read as the Latin-1 U+00A0. *)
Definition is_space (c : Ascii.ascii) : bool :=
  let n := Ascii.nat_of_ascii c in
  ((9 <=? n) && (n <=? 13))%nat || (n =? 32)%nat || (n =? 160)%nat.

(** In two bytes: U+00A0. *)
Definition is_space2 (a b : nat) : bool :=
  ((a =? 194) && (b =? 160))%nat.

(** In three bytes: U+1680, U+2000 to U+200A, U+2028, U+2029, U+202F,
    U+205F, U+3000 and U+FEFF. *)
Definition is_space3 (a b c : nat) : bool :=
  ((a =? 225) && (b =? 154) && (c =? 128)
   || (a =? 226) && (b =? 128)
      && ((128 <=? c) && (c <=? 138) || (c =? 168) || (c =? 169) || (c =? 175))
   || (a =? 226) && (b =? 129) && (c =? 159)
   || (a =? 227) && (b =? 128) && (c =? 128)
   || (a =? 239) && (b =? 187) && (c =? 191))%nat.

Fixpoint all_spaces (l : list Ascii.ascii) : bool :=
  match l with
  | [] => true
  | a :: l1 =>
      if is_space a then all_spaces l1
      else match l1 with
           | [] => false
           | b :: l2 =>
               if is_space2 (Ascii.nat_of_ascii a) (Ascii.nat_of_ascii b)
               then all_spaces l2
               else match l2 with
                    | [] => false
                    | c :: l3 =>
                        if is_space3 (Ascii.nat_of_ascii a) (Ascii.nat_of_ascii b)
                                     (Ascii.nat_of_ascii c)
                        then all_spaces l3
                        else false
                    end
           end
  end.

(** [!s.trim()]. *)
Definition blank (s : string) : bool :=
  all_spaces (list_ascii_of_string s).

(** [validate()]: true when [newErrors] has no key. *)
Definition validate (formData : FormData) (now : Z) : bool :=
  let e_itemName := blank (f_itemName formData) in
  let e_description := blank (f_description formData) in
  let minBid := parsed_minimumBid formData in
  let e_minimumBid :=
    String.eqb (f_minimumBid formData) EmptyString || le minBid zero in
  let e_endTime :=
    if String.eqb (f_endTime formData) EmptyString then true
    else parsed_endTime formData <=? now in
  negb (e_itemName || e_description || e_minimumBid || e_endTime).

(** The [newAuction] literal. *)
Definition newAuction (auctionId publicKey : string) (formData : FormData)
    (now : Z) : Auction :=
  {| id := auctionId;
     creator := publicKey;
     itemName := f_itemName formData;
     description := f_description formData;
     minimumBid := parsed_minimumBid formData;
     endTime := parsed_endTime formData;
     bids := [];
     status := active;
     createdAt := now;
     onChainSignature := None;
     auctionPDA := None;
     arciumMxePubkey := None;
     winner := None;
     winningBid := None |}.

(** Without a connected wallet the component returns the notice
    "Wallet Not Connected" in place of the form. *)
Definition renders_form (connected : bool) : bool := connected.

(** [handleSubmit] up to its first [await]: the wallet and form checks
    and the construction of [newAuction]. *)
Definition handleSubmit_begin (connected : bool) (publicKey auctionId : string)
    (formData : FormData) (now : Z) : completion Auction :=
  if negb connected then Throw [Text "Please connect your wallet first"]
  else if negb (validate formData now) then Throw []
  else Return (newAuction auctionId publicKey formData now).

(** The assignments after [createAuctionWithProgram] returned [result]. *)
Definition attach (a : Auction) (signature pda : string) : Auction :=
  {| id := id a; creator := creator a; itemName := itemName a;
     description := description a; minimumBid := minimumBid a;
     endTime := endTime a; bids := bids a; status := status a;
     createdAt := createdAt a;
     onChainSignature := Some signature;
     auctionPDA := Some pda;
     arciumMxePubkey := Some ArciumEncryption.getMXEPublicKey;
     winner := winner a; winningBid := winningBid a |}.

(** [handleSubmit] after the awaits: [result] is what
    [createAuctionWithProgram] returned or threw; on success
    [onCreateAuction(newAuction)] is called. *)
Definition handleSubmit_resume (onCreateAuction : Auction -> list Auction)
    (newAuction : Auction) (result : completion (string * string))
    : completion (list Auction) :=
  bind result (fun r => Return (onCreateAuction (attach newAuction (fst r) (snd r)))).

End AuctionCreator.

(* ===================================================================== *)
(** ** components/BidSubmission.jsx                                       *)
(* ===================================================================== *)

(** The component as it submits to the local store. The repository holds
    a second version that also checks the wallet balance and sends the
    bid on chain before it builds the same bid object; it has no further
    check on the auction either. *)

Module BidSubmission.
Import JS Data.

(** What the resumed handler reads from the environment. *)
Record Env := {
  uuid : string;                         (* crypto.randomUUID() *)
  entropy : ArciumEncryption.Entropy;    (* inside encryptBid   *)
  now : Z }.                             (* Date.now()          *)

(** Without a connected wallet the component returns the notice
    "Please connect your wallet to submit a bid" in place of the form. *)
Definition renders_form (connected : bool) : bool := connected.

(** [handleSubmit] up to its first [await]; [amount] is
    [parseFloat(bidAmount)]. [Throw m] stands for [setError(m)]. *)
Definition handleSubmit_begin (connected : bool) (amount : number)
    (auction : Auction) : completion number :=
  if negb connected then Throw [Text "Please connect your wallet first"]
  else bind (Helpers.validateBid (VNumber amount) (minimumBid auction))
            (fun _ => Return amount).

(** The [encryptedBid] literal. *)
Definition encryptedBid (env : Env) (publicKey : string) (amount : number)
    (encrypted : ArciumEncryption.EncryptedBid) : Bid :=
  {| bid_id := uuid env;
     bidder := publicKey;
     amount := amount;
     ciphertext := ArciumEncryption.enc_ciphertext encrypted;
     bid_publicKey := ArciumEncryption.enc_publicKey encrypted;
     nonce := ArciumEncryption.enc_nonce encrypted;
     timestamp := now env |}.

(** [handleSubmit] after the awaits:
    [encryptBid(BigInt(Math.floor(amount * 1e9)))], the bid object and
    [onBidSubmitted(encryptedBid)]. *)
Definition handleSubmit_resume (onBidSubmitted : Bid -> list Auction)
    (env : Env) (publicKey : string) (amount : number)
    : completion (list Auction) :=
  bind (BigInt_floor (mul amount (lit 1000000000))) (fun lamports =>
    let encrypted := ArciumEncryption.encryptBid (entropy env) lamports None in
    Return (onBidSubmitted (encryptedBid env publicKey amount encrypted))).

End BidSubmission.

(* ===================================================================== *)
(** ** components/WinnerReveal.jsx                                        *)
(* ===================================================================== *)

Module WinnerReveal.
Import JS Data.

(** The callback of the [forEach] of [handleFinalize], on the pair
    [(maxBid, winnerAddress)]. *)
Definition visit (acc : number * string) (bid : Bid) : number * string :=
  let (maxBid, winnerAddress) := acc in
  if gt (amount bid) maxBid then (amount bid, bidder bid)
  else (maxBid, winnerAddress).

(** The [forEach], from [maxBid = 0] and [winnerAddress = '']. *)
Definition select (bids : list Bid) : number * string :=
  fold_left visit bids (zero, EmptyString).

(** A bid that passed [validateBid]: its amount is above 0. *)
Definition validated (bid : Bid) : Prop := lt zero (amount bid) = true.

(** Bids in submission order, each submitted after the one before. *)
Definition increasing_timestamps (bids : list Bid) : Prop :=
  StronglySorted (fun x y => timestamp x < timestamp y) bids.

(** [handleFinalize] up to its first [await]: the empty-list test.
    [Throw m] stands for [alert(m)] followed by [return]. *)
Definition handleFinalize_begin (auction : Auction) : completion unit :=
  if (length (bids auction) =? 0)%nat
  then Throw [Text "No bids submitted for this auction"]
  else Return tt.

(** [handleFinalize] after the staged delays: the selection and
    [onFinalized(winnerAddress, maxBid)]. *)
Definition handleFinalize_resume (onFinalized : string -> number -> list Auction)
    (auction : Auction) : list Auction :=
  let (maxBid, winnerAddress) := select (bids auction) in
  onFinalized winnerAddress maxBid.

End WinnerReveal.

(* ===================================================================== *)
(** ** components/AuctionCard.jsx                                         *)
(* ===================================================================== *)

Module AuctionCard.
Import JS Data.

Definition isEnded (now : Z) (auction : Auction) : bool :=
  endTime auction <=? now.

Definition isFinalized (auction : Auction) : bool :=
  Status_eqb (status auction) finalized.

(** [handleBidSubmitted(encryptedBid)]. *)
Definition handleBidSubmitted (onUpdateAuction : string -> Updates -> list Auction)
    (auction : Auction) (encryptedBid : Bid) : list Auction :=
  let updatedBids := bids auction ++ [encryptedBid] in
  onUpdateAuction (id auction) (bid_update updatedBids).

(** [handleFinalized(winner, winningBid)]. *)
Definition handleFinalized (onUpdateAuction : string -> Updates -> list Auction)
    (auction : Auction) (winner : string) (winningBid : number) : list Auction :=
  onUpdateAuction (id auction) (finalize_update winner winningBid).

(** Which controls a render of the card shows. *)
Definition shows_bid_button (now : Z) (auction : Auction) (showBidForm : bool) : bool :=
  negb (isEnded now auction) && negb showBidForm.

Definition shows_bid_form (showBidForm : bool) : bool := showBidForm.

Definition shows_winner_reveal (now : Z) (auction : Auction) : bool :=
  isEnded now auction && negb (isFinalized auction).

End AuctionCard.

(* ===================================================================== *)
(** ** components/AuctionList.jsx                                         *)
(* ===================================================================== *)

Module AuctionList.
Import JS Data.

(** The [filter] state: ['all'], ['active'], ['ended'], ['finalized']. *)
Inductive Filter : Type := f_all | f_active | f_ended | f_finalized.

(** The callback of [auctions.filter] that computes [filteredAuctions];
    [now] is the [Date.now()] that this call of the callback reads. *)
Definition shown (filter : Filter) (now : Z) (auction : Auction) : bool :=
  let isEnded := endTime auction <=? now in
  let isFinalized := Status_eqb (status auction) finalized in
  match filter with
  | f_active => negb isEnded && negb isFinalized
  | f_ended => isEnded && negb isFinalized
  | f_finalized => isFinalized
  | f_all => true
  end.

(** [auctions.filter(callback)]: the callback runs once for each auction
    and reads the clock each time; [clock i] is what its call on the
    auction at index [i] reads. *)
Fixpoint filter_from (filter : Filter) (clock : nat -> Z) (i : nat)
    (auctions : list Auction) : list Auction :=
  match auctions with
  | [] => []
  | a :: rest =>
      if shown filter (clock i) a
      then a :: filter_from filter clock (S i) rest
      else filter_from filter clock (S i) rest
  end.

Definition filteredAuctions (filter : Filter) (clock : nat -> Z)
    (auctions : list Auction) : list Auction :=
  filter_from filter clock 0 auctions.

(** The numbers on the filter buttons all and finalized. *)
Definition count_all (auctions : list Auction) : nat := length auctions.

Definition count_finalized (auctions : list Auction) : nat :=
  length (List.filter (fun a => Status_eqb (status a) finalized) auctions).

End AuctionList.

(* ===================================================================== *)
(** ** The running application                                            *)
(* ===================================================================== *)

(** The handlers of the components are [async]: each runs up to its first
    [await], is suspended, and later runs to its end with the variables of
    the render in which it was started (the [auctions] array read by
    [handleUpdateAuction], the [auction] prop). A state of the application
    is the store, the local state of each card, and the suspended
    handlers with what they captured. *)

Module Session.
Import JS Data.

(** [useState] of [AuctionCard], [BidSubmission] and [WinnerReveal]. *)
Record CardState := {
  showBidForm : bool;
  isEncrypting : bool;
  isFinalizing : bool }.

Definition mounted : CardState :=
  {| showBidForm := false; isEncrypting := false; isFinalizing := false |}.

Inductive Pending : Type :=
| AwaitCreate (auctions : list Auction) (newAuction : Auction)
| AwaitBid (auctions : list Auction) (auction : Auction)
           (publicKey : string) (amount : number)
| AwaitFinalize (auctions : list Auction) (auction : Auction).

Record State := {
  auctions : list Auction;
  cards : string -> CardState;
  pending : list Pending }.

Definition initial : State :=
  {| auctions := []; cards := fun _ => mounted; pending := [] |}.

(** The auction objects a suspended handler holds. *)
Definition captured (p : Pending) : list Auction :=
  match p with
  | AwaitCreate auctions newAuction => newAuction :: auctions
  | AwaitBid auctions auction _ _ => auction :: auctions
  | AwaitFinalize auctions auction => auction :: auctions
  end.

(** A property [P] of auction records as an invariant of the running
    application: it covers the records of the store and the records
    held by suspended handlers, whose bids in waiting passed
    [validateBid]. *)
Definition holds_in_pending (P : Auction -> Prop) (p : Pending) : Prop :=
  Forall P (captured p)
  /\ match p with
     | AwaitBid _ _ _ amount => lt zero amount = true
     | _ => True
     end.

Definition invariant (P : Auction -> Prop) (s : State) : Prop :=
  Forall P (auctions s) /\ Forall (holds_in_pending P) (pending s).

(** What a resumed handler reads from the environment. *)
Record ResumeEnv := {
  bid_env : BidSubmission.Env;
  chain : completion (string * string) }.  (* createAuctionWithProgram *)

(** User actions and resumptions. [now] in a click is the [Date.now()]
    of the render that drew the control. *)
Inductive Event : Type :=
| CreateClicked (connected : bool) (publicKey auctionId : string)
                (formData : AuctionCreator.FormData) (now : Z)
| BidButtonClicked (auctionId : string) (now : Z)
| CancelClicked (auctionId : string)
| SubmitClicked (auctionId : string) (connected : bool) (publicKey : string)
                (amount : number)
| FinalizeClicked (auctionId : string) (now : Z)
| Resumed (k : nat) (env : ResumeEnv)
| Remounted (auctionId : string).

Inductive Outcome : Type :=
| Done
| Shown (m : message)      (* alert(m) or an error under the form *)
| NotRendered.             (* the control is not on the page *)

Definition card_of (s : State) (auctionId : string) : option Auction :=
  find (fun a => String.eqb (id a) auctionId) (auctions s).

Definition set_card (s : State) (auctionId : string) (c : CardState) : State :=
  {| auctions := auctions s;
     cards := fun i => if String.eqb i auctionId then c else cards s i;
     pending := pending s |}.

Definition suspend (s : State) (p : Pending) : State :=
  {| auctions := auctions s; cards := cards s; pending := pending s ++ [p] |}.

Definition setAuctions (s : State) (updated : list Auction) : State :=
  {| auctions := updated; cards := cards s; pending := pending s |}.

Definition drop_pending (s : State) (k : nat) : State :=
  {| auctions := auctions s; cards := cards s;
     pending := firstn k (pending s) ++ skipn (S k) (pending s) |}.

Definition click_create (s : State) connected publicKey auctionId formData now
    : State * Outcome :=
  if AuctionCreator.renders_form connected
  then match AuctionCreator.handleSubmit_begin
               connected publicKey auctionId formData now with
       | Return a => (suspend s (AwaitCreate (auctions s) a), Done)
       | Throw m => (s, Shown m)
       end
  else (s, NotRendered).

Definition click_bid_button (s : State) auctionId now : State * Outcome :=
  match card_of s auctionId with
  | Some auction =>
      let c := cards s auctionId in
      if AuctionCard.shows_bid_button now auction (showBidForm c)
      then (set_card s auctionId
              {| showBidForm := true; isEncrypting := isEncrypting c;
                 isFinalizing := isFinalizing c |}, Done)
      else (s, NotRendered)
  | None => (s, NotRendered)
  end.

Definition click_cancel (s : State) auctionId : State * Outcome :=
  let c := cards s auctionId in
  if AuctionCard.shows_bid_form (showBidForm c) && negb (isEncrypting c)
  then (set_card s auctionId
          {| showBidForm := false; isEncrypting := isEncrypting c;
             isFinalizing := isFinalizing c |}, Done)
  else (s, NotRendered).

Definition click_submit (s : State) auctionId connected publicKey amount
    : State * Outcome :=
  match card_of s auctionId with
  | Some auction =>
      let c := cards s auctionId in
      if AuctionCard.shows_bid_form (showBidForm c)
         && BidSubmission.renders_form connected && negb (isEncrypting c)
      then match BidSubmission.handleSubmit_begin connected amount auction with
           | Return amount =>
               (suspend
                  (set_card s auctionId
                     {| showBidForm := showBidForm c; isEncrypting := true;
                        isFinalizing := isFinalizing c |})
                  (AwaitBid (auctions s) auction publicKey amount), Done)
           | Throw m => (s, Shown m)
           end
      else (s, NotRendered)
  | None => (s, NotRendered)
  end.

Definition click_finalize (s : State) auctionId now : State * Outcome :=
  match card_of s auctionId with
  | Some auction =>
      let c := cards s auctionId in
      if AuctionCard.shows_winner_reveal now auction && negb (isFinalizing c)
      then match WinnerReveal.handleFinalize_begin auction with
           | Return _ =>
               (suspend
                  (set_card s auctionId
                     {| showBidForm := showBidForm c;
                        isEncrypting := isEncrypting c; isFinalizing := true |})
                  (AwaitFinalize (auctions s) auction), Done)
           | Throw m => (s, Shown m)
           end
      else (s, NotRendered)
  | None => (s, NotRendered)
  end.

Definition resume (s : State) (k : nat) (env : ResumeEnv) : State * Outcome :=
  match nth_error (pending s) k with
  | None => (s, NotRendered)
  | Some p =>
      let s := drop_pending s k in
      match p with
      | AwaitCreate captured newAuction =>
          match AuctionCreator.handleSubmit_resume
                  (App.handleCreateAuction captured) newAuction (chain env) with
          | Return updated => (setAuctions s updated, Done)
          | Throw m => (s, Shown m)
          end
      | AwaitBid captured auction publicKey amount =>
          let c := cards s (id auction) in
          match BidSubmission.handleSubmit_resume
                  (AuctionCard.handleBidSubmitted
                     (App.handleUpdateAuction captured) auction)
                  (bid_env env) publicKey amount with
          | Return updated =>
              (set_card (setAuctions s updated) (id auction)
                 {| showBidForm := false; isEncrypting := false;
                    isFinalizing := isFinalizing c |}, Done)
          | Throw m =>
              (set_card s (id auction)
                 {| showBidForm := showBidForm c; isEncrypting := false;
                    isFinalizing := isFinalizing c |}, Shown m)
          end
      | AwaitFinalize captured auction =>
          let c := cards s (id auction) in
          let updated :=
            WinnerReveal.handleFinalize_resume
              (AuctionCard.handleFinalized
                 (App.handleUpdateAuction captured) auction) auction in
          (set_card (setAuctions s updated) (id auction)
             {| showBidForm := showBidForm c; isEncrypting := isEncrypting c;
                isFinalizing := false |}, Done)
      end
  end.

Definition step (s : State) (e : Event) : State * Outcome :=
  match e with
  | CreateClicked connected publicKey auctionId formData now =>
      click_create s connected publicKey auctionId formData now
  | BidButtonClicked auctionId now => click_bid_button s auctionId now
  | CancelClicked auctionId => click_cancel s auctionId
  | SubmitClicked auctionId connected publicKey amount =>
      click_submit s auctionId connected publicKey amount
  | FinalizeClicked auctionId now => click_finalize s auctionId now
  | Resumed k env => resume s k env
  | Remounted auctionId => (set_card s auctionId mounted, Done)
  end.

Definition run (s : State) (trace : list Event) : State :=
  fold_left (fun s e => fst (step s e)) trace s.

Inductive reachable : State -> Prop :=
| reachable_initial : reachable initial
| reachable_step s e : reachable s -> reachable (fst (step s e)).

(** A submission and a settlement, each run from the click to the end of
    the handler with no other handler in between. *)
Definition submitBid (s : State) auctionId connected publicKey amount env : State :=
  run s [SubmitClicked auctionId connected publicKey amount;
         Resumed (length (pending s)) env].

Definition settle (s : State) auctionId now env : State :=
  run s [FinalizeClicked auctionId now; Resumed (length (pending s)) env].

End Session.

(* ===================================================================== *)
(** ** Concrete runs                                                      *)
(* ===================================================================== *)

(** One auction with minimum bid 0.5 that closes at 3 600 000 ms, and the
    clicks and resumptions used below as examples. Times are in ms, as
    [Date.now()] gives them. *)

Module Scenario.
Import JS Data Session.

Definition zeros (n : nat) : list Z := repeat 0 n.
Definition ones (n : nat) : list Z := repeat 1 n.

Definition half : number := lit2 1 (-1).
Definition one : number := lit 1.
Definition two : number := lit 2.
Definition three : number := lit 3.
Definition five : number := lit 5.

Definition bid (who : string) (amount : number) (t : Z) : Bid :=
  {| bid_id := who; bidder := who; amount := amount; ciphertext := [];
     bid_publicKey := []; nonce := []; timestamp := t |}.

Definition formData : AuctionCreator.FormData :=
  {| AuctionCreator.f_itemName := "Painting";
     AuctionCreator.f_description := "Oil on canvas";
     AuctionCreator.f_minimumBid := "0.5";
     AuctionCreator.f_endTime := "1970-01-01T01:00";
     AuctionCreator.parsed_minimumBid := half;
     AuctionCreator.parsed_endTime := 3600000 |}.

Definition env (bidId : string) (t : Z) : ResumeEnv :=
  {| bid_env :=
       {| BidSubmission.uuid := bidId;
          BidSubmission.entropy :=
            {| ArciumEncryption.keyEntropy := repeat 7 32;
               ArciumEncryption.nonceEntropy := repeat 3 16;
               ArciumEncryption.clock := t |};
          BidSubmission.now := t |};
     chain := Return ("signature"%string, "pda"%string) |}.

(** The auction is created at time 0. *)
Definition created : list Event :=
  [ CreateClicked true "creator" "auction-1" formData 0;
    Resumed 0 (env EmptyString 1500) ].

(** X opens the form and bids 1 while the auction is open. *)
Definition bid_of_X : list Event :=
  [ BidButtonClicked "auction-1" 1000;
    SubmitClicked "auction-1" true "bidder-X" one;
    Resumed 0 (env "bid-1" 4000) ].

(** Y opens the form and bids 2 while the auction is open. *)
Definition bid_of_Y : list Event :=
  [ BidButtonClicked "auction-1" 5000;
    SubmitClicked "auction-1" true "bidder-Y" two;
    Resumed 0 (env "bid-2" 8000) ].


(** The form is opened ten minutes before the close, and the bid is
    submitted from it an hour after the close. *)
Definition late_bid : list Event :=
  [ BidButtonClicked "auction-1" 3000000;
    SubmitClicked "auction-1" true "bidder-Y" two;
    Resumed 0 (env "bid-2" 7200000) ].

(** The form is opened before the close, the auction is finalized after
    the close, and then the bid is submitted from the open form. *)
Definition bid_after_finalization : list Event :=
  [ BidButtonClicked "auction-1" 3000000;
    FinalizeClicked "auction-1" 4000000;
    Resumed 0 (env EmptyString 4005500);
    SubmitClicked "auction-1" true "bidder-Y" two;
    Resumed 0 (env "bid-2" 4100000) ].

(** The form is opened before the close. After the close the finalize
    button is clicked; four seconds later, while the staged delays of
    the finalization run, a bid is submitted from the open form. The
    finalization ends first, the submission second. *)
Definition overlapping : list Event :=
  [ BidButtonClicked "auction-1" 3000000;
    FinalizeClicked "auction-1" 4000000;
    SubmitClicked "auction-1" true "bidder-Y" two ].

Definition finalization_ends : list Event := [ Resumed 0 (env EmptyString 4005500) ].
Definition submission_ends : list Event := [ Resumed 0 (env "bid-2" 4006400) ].

Definition finalized_again : list Event :=
  [ FinalizeClicked "auction-1" 4010000;
    Resumed 0 (env EmptyString 4015500) ].

(** A second auction, open until 36 000 000, with its bid form open. *)
Definition formData2 : AuctionCreator.FormData :=
  {| AuctionCreator.f_itemName := "Vase";
     AuctionCreator.f_description := "Porcelain";
     AuctionCreator.f_minimumBid := "0.5";
     AuctionCreator.f_endTime := "1970-01-01T10:00";
     AuctionCreator.parsed_minimumBid := half;
     AuctionCreator.parsed_endTime := 36000000 |}.

Definition second_auction : list Event :=
  [ CreateClicked true "creator" "auction-2" formData2 9000;
    Resumed 0 (env EmptyString 10500);
    BidButtonClicked "auction-2" 3900000 ].

(** The first auction is being finalized; four seconds after the click a
    bid is submitted on the second auction. *)
Definition overlapping_elsewhere : list Event :=
  [ FinalizeClicked "auction-1" 4000000;
    SubmitClicked "auction-2" true "bidder-Y" two ].

(** A default for reading the head of a store. *)
Definition blank_auction : Auction :=
  AuctionCreator.newAuction EmptyString EmptyString formData 0.

(** The record of the first auction in a state. *)
Definition record (s : State) : option Auction := card_of s "auction-1".

End Scenario.

(* ===================================================================== *)
(** ** Terms used in the statements                                       *)
(* ===================================================================== *)

Module Terms.

(** A byte array with no leading zero byte. *)
Definition no_leading_zero (bytes : list Z) : Prop :=
  match bytes with
  | [] => True
  | b :: _ => b <> 0
  end.

(** The inverse of the public-key transform of [generateX25519Keypair],
    byte by byte: 57 is the inverse of 9 modulo 256. *)
Definition recover_privateKey (publicKey : list Z) : list Z :=
  map (fun p => ((p - 121) * 57) mod 256) publicKey.

End Terms.

(* ===================================================================== *)
(** * Properties                                                          *)
(* ===================================================================== *)

(** ** Bytes and the big-endian encoding *)

Module EncodingFacts.
Import JS ArciumEncryption.

Lemma loop_unfold (num : Z) (bytes : list Z) :
  bigIntToBytes_loop num bytes =
  if Z_lt_dec 0 num
  then bigIntToBytes_loop (num / 256) (bytes ++ [num mod 256])
  else bytes.
Proof.
  rewrite bigIntToBytes_loop_equation_1.
  destruct (Z_lt_dec 0 num); reflexivity.
Qed.

(** The loop only appends to what was pushed before. *)
Lemma loop_acc (num : Z) :
  forall bytes,
    bigIntToBytes_loop num bytes = bytes ++ bigIntToBytes_loop num [].
Proof.
  induction num as [num IH] using (well_founded_induction (Z.lt_wf 0)).
  intros bytes.
  rewrite (loop_unfold num bytes), (loop_unfold num []).
  destruct (Z_lt_dec 0 num) as [Hpos | Hneg].
  - assert (Hlt : 0 <= num / 256 < num).
    { split; [apply Z.div_pos; lia | apply Z.div_lt; lia]. }
    rewrite (IH _ Hlt (bytes ++ [num mod 256])).
    rewrite (IH _ Hlt ([] ++ [num mod 256])).
    now rewrite <- app_assoc.
  - now rewrite app_nil_r.
Qed.

Lemma bigIntToBytes_pos (v : Z) :
  0 < v -> bigIntToBytes v = bigIntToBytes (v / 256) ++ [v mod 256].
Proof.
  intros Hpos. unfold bigIntToBytes.
  rewrite (loop_unfold v []).
  destruct (Z_lt_dec 0 v) as [_ | Hneg]; [| contradiction].
  rewrite loop_acc. simpl app.
  change (rev ([v mod 256] ++ bigIntToBytes_loop (v / 256) []))
    with (rev ((v mod 256) :: bigIntToBytes_loop (v / 256) [])).
  simpl rev. rewrite map_app. simpl map.
  unfold Uint8.store at 2. now rewrite Z.mod_mod by lia.
Qed.

Lemma bigIntToBytes_nonpos (v : Z) : v <= 0 -> bigIntToBytes v = [].
Proof.
  intros Hle. unfold bigIntToBytes. rewrite loop_unfold.
  destruct (Z_lt_dec 0 v); [lia | reflexivity].
Qed.

Lemma bigIntToBytes_length_pos (v : Z) :
  0 < v -> length (bigIntToBytes v) = S (length (bigIntToBytes (v / 256))).
Proof.
  intros Hpos. rewrite bigIntToBytes_pos by assumption.
  rewrite length_app. simpl. lia.
Qed.

Lemma bigIntToBytes_bytes (v : Z) : Uint8.bytes (bigIntToBytes v).
Proof.
  unfold Uint8.bytes, bigIntToBytes. apply Forall_map, Forall_forall.
  intros b _. unfold Uint8.store. apply Z.mod_pos_bound. lia.
Qed.

Lemma bytesToBigInt_snoc (l : list Z) (b : Z) :
  bytesToBigInt (l ++ [b]) = bytesToBigInt l * 256 + b.
Proof.
  unfold bytesToBigInt. rewrite fold_left_app. cbn [fold_left].
  now rewrite Z.shiftl_mul_pow2 by lia.
Qed.

Lemma bytesToBigInt_zeros (l : list Z) (k : nat) :
  bytesToBigInt (l ++ repeat 0 k) = bytesToBigInt l * 256 ^ Z.of_nat k.
Proof.
  induction k as [| k IH].
  - rewrite app_nil_r. simpl. lia.
  - replace (repeat 0 (S k)) with (repeat 0 k ++ [0])
      by (rewrite <- repeat_cons; reflexivity).
    rewrite app_assoc, bytesToBigInt_snoc, IH.
    rewrite Nat2Z.inj_succ, Z.pow_succ_r by lia. lia.
Qed.

(** Decoding the encoding gives the value back. *)
Lemma bytesToBigInt_bigIntToBytes (v : Z) :
  0 <= v -> bytesToBigInt (bigIntToBytes v) = v.
Proof.
  induction v as [v IH] using (well_founded_induction (Z.lt_wf 0)).
  intros Hv. destruct (Z.eq_dec v 0) as [-> | Hnz].
  - now rewrite bigIntToBytes_nonpos by lia.
  - rewrite bigIntToBytes_pos by lia.
    rewrite bytesToBigInt_snoc, IH.
    + pose proof (Z.div_mod v 256). lia.
    + split; [apply Z.div_pos; lia | apply Z.div_lt; lia].
    + apply Z.div_pos; lia.
Qed.

(** The encoding of [v] has at most [k] bytes exactly when [v < 256^k]. *)
Lemma bigIntToBytes_length_le (k : nat) :
  forall v, 0 <= v ->
    ((length (bigIntToBytes v) <= k)%nat <-> v < 256 ^ Z.of_nat k).
Proof.
  induction k as [| k IH]; intros v Hv.
  - change (256 ^ Z.of_nat 0) with 1. destruct (Z.eq_dec v 0) as [-> | Hnz].
    + rewrite bigIntToBytes_nonpos by lia. simpl. split; intros; lia.
    + rewrite bigIntToBytes_length_pos by lia. split; intros; lia.
  - destruct (Z.eq_dec v 0) as [-> | Hnz].
    + rewrite bigIntToBytes_nonpos by lia. simpl length.
      split; intros; [apply Z.pow_pos_nonneg; lia | lia].
    + rewrite bigIntToBytes_length_pos by lia.
      rewrite Nat2Z.inj_succ, Z.pow_succ_r by lia.
      assert (Hq : 0 <= v / 256) by (apply Z.div_pos; lia).
      specialize (IH (v / 256) Hq).
      pose proof (Z.div_mod v 256 ltac:(lia)).
      pose proof (Z.mod_pos_bound v 256 ltac:(lia)).
      split; intros H1.
      * assert (v / 256 < 256 ^ Z.of_nat k) by (apply IH; lia). lia.
      * assert (v / 256 < 256 ^ Z.of_nat k) by lia.
        apply IH in H2. lia.
Qed.

(** Dropping the last byte of a long encoding is dividing by 256. *)
Lemma firstn_bigIntToBytes (k : nat) :
  forall v,
    length (bigIntToBytes v) = (32 + k)%nat ->
    firstn 32 (bigIntToBytes v) = bigIntToBytes (v / 256 ^ Z.of_nat k).
Proof.
  induction k as [| k IH]; intros v Hlen.
  - change (256 ^ Z.of_nat 0) with 1. rewrite Z.div_1_r.
    rewrite Nat.add_0_r in Hlen. rewrite <- Hlen. apply firstn_all.
  - assert (Hpos : 0 < v).
    { destruct (Z_lt_dec 0 v); [assumption |].
      rewrite bigIntToBytes_nonpos in Hlen by lia. discriminate. }
    rewrite bigIntToBytes_length_pos in Hlen by assumption.
    rewrite bigIntToBytes_pos by assumption.
    rewrite firstn_app.
    replace (32 - length (bigIntToBytes (v / 256)))%nat with 0%nat by lia.
    simpl firstn at 2. rewrite app_nil_r.
    rewrite IH by lia.
    rewrite Nat2Z.inj_succ, Z.pow_succ_r by lia.
    now rewrite Z.div_div by (try apply Z.pow_pos_nonneg; lia).
Qed.

Lemma lxor_byte (a b : Z) :
  0 <= a < 256 -> 0 <= b < 256 -> 0 <= Z.lxor a b < 256.
Proof.
  intros Ha Hb.
  assert (Hnn : 0 <= Z.lxor a b) by (apply Z.lxor_nonneg; lia).
  split; [assumption |].
  destruct (Z.eq_dec (Z.lxor a b) 0) as [-> | Hnz]; [lia |].
  change 256 with (2 ^ 8). apply Z.log2_lt_pow2; [lia |].
  pose proof (Z.log2_lxor a b ltac:(lia) ltac:(lia)).
  assert (Z.log2 a < 8).
  { destruct (Z.eq_dec a 0) as [-> | ?]; [simpl; lia |].
    apply Z.log2_lt_pow2; [lia | change (2 ^ 8) with 256; lia]. }
  assert (Z.log2 b < 8).
  { destruct (Z.eq_dec b 0) as [-> | ?]; [simpl; lia |].
    apply Z.log2_lt_pow2; [lia | change (2 ^ 8) with 256; lia]. }
  lia.
Qed.

Lemma get_byte (a : list Z) (i : nat) :
  Uint8.bytes a -> 0 <= Uint8.get a i < 256.
Proof.
  intros Ha. unfold Uint8.get.
  destruct (Nat.lt_ge_cases i (length a)) as [Hlt | Hge].
  - unfold Uint8.bytes in Ha. rewrite Forall_forall in Ha.
    apply Ha, nth_In, Hlt.
  - rewrite nth_overflow by assumption. lia.
Qed.

Lemma get_fill (n : nat) (f : nat -> Z) (i : nat) :
  (i < n)%nat -> Uint8.get (Uint8.fill n f) i = Uint8.store (f i).
Proof.
  intros Hlt. unfold Uint8.get, Uint8.fill.
  rewrite (nth_indep _ 0 (Uint8.store (f 0%nat)))
    by (rewrite length_map, length_seq; assumption).
  rewrite (map_nth (fun i => Uint8.store (f i)) (seq 0 n) 0%nat i).
  now rewrite seq_nth by assumption.
Qed.

Lemma fill_length (n : nat) (f : nat -> Z) : length (Uint8.fill n f) = n.
Proof. unfold Uint8.fill. now rewrite length_map, length_seq. Qed.

(** Masking twice with the same key and nonce bytes gives the byte back. *)
Lemma unmask (p k n : Z) :
  0 <= p < 256 -> 0 <= k < 256 -> 0 <= n < 256 ->
  Uint8.store
    (Z.lxor (Z.lxor (Uint8.store (Z.lxor (Z.lxor p k) n mod 256)) k) n mod 256)
  = p.
Proof.
  intros Hp Hk Hn. unfold Uint8.store.
  pose proof (lxor_byte p k Hp Hk) as Hpk.
  pose proof (lxor_byte _ n Hpk Hn) as Hpkn.
  rewrite (Z.mod_small (Z.lxor (Z.lxor p k) n)) by assumption.
  rewrite (Z.mod_small (Z.lxor (Z.lxor p k) n)) by assumption.
  replace (Z.lxor (Z.lxor (Z.lxor (Z.lxor p k) n) k) n) with p.
  - rewrite Z.mod_mod by lia. apply Z.mod_small; lia.
  - rewrite (Z.lxor_assoc p k n), (Z.lxor_comm k n), <- (Z.lxor_assoc p n k).
    rewrite (Z.lxor_assoc (Z.lxor p n) k k), Z.lxor_nilpotent, Z.lxor_0_r.
    now rewrite Z.lxor_assoc, Z.lxor_nilpotent, Z.lxor_0_r.
Qed.

Lemma padded_firstn (l : list Z) (n m : nat) :
  (n <= m)%nat ->
  map (fun i => if (i <? length l)%nat then Uint8.get l i else 0) (seq 0 n)
  = firstn n (l ++ repeat 0 m).
Proof.
  intros Hle. apply (nth_ext _ _ 0 0).
  - rewrite length_map, length_seq, length_firstn, length_app, repeat_length. lia.
  - intros i Hi. rewrite length_map, length_seq in Hi.
    set (g := fun i => if (i <? length l)%nat then Uint8.get l i else 0).
    rewrite (nth_indep _ 0 (g 0%nat)) by (rewrite length_map, length_seq; assumption).
    rewrite (map_nth g (seq 0 n) 0%nat i), seq_nth by assumption.
    rewrite nth_firstn.
    destruct (Nat.ltb_spec i n) as [_ | ?]; [| lia].
    subst g. cbv beta. simpl Nat.add.
    destruct (Nat.ltb_spec i (length l)) as [Hin | Hout].
    + now rewrite app_nth1 by assumption.
    + rewrite app_nth2 by assumption. now rewrite nth_repeat.
Qed.

Lemma plainBytes_firstn (v : Z) :
  plainBytes v = firstn 32 (bigIntToBytes v ++ repeat 0 32).
Proof. unfold plainBytes. now apply padded_firstn. Qed.

Lemma firstn_zeros (k : nat) :
  forall m, (k <= m)%nat -> firstn k (repeat 0 m) = repeat 0 k.
Proof.
  induction k as [| k IH]; intros [| m] Hle; try reflexivity; try lia.
  simpl. f_equal. apply IH. lia.
Qed.

Lemma plainBytes_short (v : Z) :
  (length (bigIntToBytes v) <= 32)%nat ->
  plainBytes v
  = bigIntToBytes v ++ repeat 0 (32 - length (bigIntToBytes v)).
Proof.
  intros Hle. rewrite plainBytes_firstn, firstn_app.
  rewrite firstn_all2 by assumption.
  now rewrite firstn_zeros by lia.
Qed.

Lemma plainBytes_long (v : Z) (k : nat) :
  length (bigIntToBytes v) = (32 + k)%nat ->
  plainBytes v = bigIntToBytes (v / 256 ^ Z.of_nat k).
Proof.
  intros Hlen. rewrite plainBytes_firstn, firstn_app.
  replace (32 - length (bigIntToBytes v))%nat with 0%nat by lia.
  simpl firstn at 2. rewrite app_nil_r.
  now apply firstn_bigIntToBytes.
Qed.

Lemma encrypt_plainBytes (this : SimplifiedRescueCipher) (v : Z) (nonce : list Z) :
  encrypt this v nonce
  = map (fun i =>
           Uint8.store
             (Z.lxor (Z.lxor (nth i (plainBytes v) 0) (Uint8.get (key this) i))
                     (Uint8.get nonce (i mod length nonce)) mod 256))
        (seq 0 32).
Proof.
  unfold encrypt, Uint8.fill. apply map_ext_in. intros i Hi.
  apply in_seq in Hi.
  unfold plainBytes.
  set (g := fun i => if (i <? length (bigIntToBytes v))%nat
                     then Uint8.get (bigIntToBytes v) i else 0).
  rewrite (nth_indep _ 0 (g 0%nat)) by (rewrite length_map, length_seq; lia).
  rewrite (map_nth g (seq 0 32) 0%nat i), seq_nth by lia.
  reflexivity.
Qed.

Lemma plainBytes_bytes (v : Z) : Uint8.bytes (plainBytes v).
Proof.
  unfold Uint8.bytes, plainBytes. apply Forall_map, Forall_forall.
  intros i _. destruct (i <? _)%nat; [| lia].
  apply get_byte, bigIntToBytes_bytes.
Qed.

Lemma plainBytes_length (v : Z) : length (plainBytes v) = 32%nat.
Proof. unfold plainBytes. now rewrite length_map, length_seq. Qed.

(** [decrypt] after [encrypt], for byte arrays as key and nonce, decodes
    the 32 plaintext bytes. *)
Lemma decrypt_encrypt (this : SimplifiedRescueCipher) (v : Z) (nonce : list Z) :
  Uint8.bytes (key this) -> Uint8.bytes nonce ->
  decrypt this (encrypt this v nonce) nonce = bytesToBigInt (plainBytes v).
Proof.
  intros Hkey Hnonce. unfold decrypt. f_equal.
  apply (nth_ext _ _ 0 0).
  - now rewrite fill_length, plainBytes_length.
  - intros i Hi. rewrite fill_length in Hi.
    change (nth i (Uint8.fill 32 ?f) 0) with (Uint8.get (Uint8.fill 32 f) i).
    rewrite get_fill by assumption.
    rewrite encrypt_plainBytes.
    change (Uint8.get (map ?f (seq 0 32)) i)
      with (Uint8.get (Uint8.fill 32 (fun i =>
             Z.lxor (Z.lxor (nth i (plainBytes v) 0) (Uint8.get (key this) i))
               (Uint8.get nonce (i mod length nonce)) mod 256)) i).
    rewrite get_fill by assumption.
    apply unmask.
    + apply (get_byte (plainBytes v) i), plainBytes_bytes.
    + now apply get_byte.
    + now apply get_byte.
Qed.

(** A value of at most 32 bytes comes back shifted to the left end of
    the block. *)
Lemma decrypt_encrypt_short (this : SimplifiedRescueCipher) (v : Z) (nonce : list Z) :
  Uint8.bytes (key this) -> Uint8.bytes nonce ->
  0 <= v -> (length (bigIntToBytes v) <= 32)%nat ->
  decrypt this (encrypt this v nonce) nonce
  = v * 256 ^ Z.of_nat (32 - length (bigIntToBytes v)).
Proof.
  intros Hkey Hnonce Hv Hlen.
  rewrite decrypt_encrypt by assumption.
  rewrite plainBytes_short by assumption.
  now rewrite bytesToBigInt_zeros, bytesToBigInt_bigIntToBytes.
Qed.

Lemma encrypt_length (this : SimplifiedRescueCipher) (v : Z) (nonce : list Z) :
  length (encrypt this v nonce) = 32%nat.
Proof. unfold encrypt. apply fill_length. Qed.

Lemma encrypt_same_plainBytes (this : SimplifiedRescueCipher) (v w : Z) (nonce : list Z) :
  plainBytes v = plainBytes w -> encrypt this v nonce = encrypt this w nonce.
Proof. intros E. now rewrite !encrypt_plainBytes, E. Qed.

End EncodingFacts.

(** ** The sealing scheme *)

Module SealingFacts.
Import JS ArciumEncryption EncodingFacts Scenario.

(** C1 (shared-secret symmetry), evaluated on the key pairs generated
    from the private keys 00..00 and 01..01: the secret derived from the
    first private key and the second public key is 82..82 (130), the
    secret derived the other way round is 78..78 (120). The two sides of
    the exchange do not agree. *)
Theorem C1_shared_secret_differs :
  let a := generateX25519Keypair (zeros 32) in
  let b := generateX25519Keypair (ones 32) in
  performKeyExchange (privateKey a) (publicKey b) = repeat 130 32
  /\ performKeyExchange (privateKey b) (publicKey a) = repeat 120 32
  /\ performKeyExchange (privateKey a) (publicKey b)
     <> performKeyExchange (privateKey b) (publicKey a).
Proof.
  cbv zeta. repeat split; try (vm_compute; reflexivity).
  vm_compute. discriminate.
Qed.

(** C2 (seal/unseal round trip), on the values it fails for: a positive
    value below 256^31 does not come back from [decrypt] after
    [encrypt]; it comes back multiplied by a power of 256, because
    [encrypt] puts the bytes of the value at the left end of the block
    and [decrypt] reads the whole block as one big-endian number. *)
Theorem C2_round_trip_shifts_short_values
    (this : SimplifiedRescueCipher) (v : Z) (nonce : list Z) :
  Uint8.bytes (key this) -> Uint8.bytes nonce ->
  0 < v < 256 ^ 31 ->
  decrypt this (encrypt this v nonce) nonce
  = v * 256 ^ Z.of_nat (32 - length (bigIntToBytes v))
  /\ decrypt this (encrypt this v nonce) nonce <> v.
Proof.
  intros Hkey Hnonce Hv.
  assert (Hlen : (length (bigIntToBytes v) <= 31)%nat).
  { apply (bigIntToBytes_length_le 31); [lia |]. apply Hv. }
  rewrite decrypt_encrypt_short by (assumption || lia).
  split; [reflexivity |].
  assert (Hpow : 256 ^ 1 <= 256 ^ Z.of_nat (32 - length (bigIntToBytes v))).
  { apply Z.pow_le_mono_r; lia. }
  change (256 ^ 1) with 256 in Hpow. nia.
Qed.

Lemma C2_round_trip_shifts_short_values_witness :
  decrypt {| key := zeros 32 |} (encrypt {| key := zeros 32 |} 1 (zeros 16)) (zeros 16)
  = 1 * 256 ^ Z.of_nat (32 - length (bigIntToBytes 1))
  /\ decrypt {| key := zeros 32 |} (encrypt {| key := zeros 32 |} 1 (zeros 16)) (zeros 16)
     <> 1.
Proof.
  apply (C2_round_trip_shifts_short_values {| key := zeros 32 |} 1 (zeros 16)).
  - unfold Uint8.bytes. simpl. repeat constructor; lia.
  - unfold Uint8.bytes. simpl. repeat constructor; lia.
  - vm_compute. split; reflexivity.
Defined.

(** What the round trip gives for the value 1. *)
Example decrypt_encrypt_one :
  decrypt {| key := zeros 32 |} (encrypt {| key := zeros 32 |} 1 (zeros 16)) (zeros 16)
  = 256 ^ 31.
Proof. vm_compute. reflexivity. Qed.

(** The same on the path the application uses: a bid of 10^9 lamports
    sealed by [encryptBid] and opened by [decryptResult] with the private
    key of the bidder comes back as 10^9 * 256^28. *)
Example decryptResult_encryptBid :
  let entropy := {| keyEntropy := repeat 7 32; nonceEntropy := repeat 3 16;
                    clock := 0 |} in
  let sealed := encryptBid entropy 1000000000 None in
  decryptResult (enc_ciphertext sealed) (enc_nonce sealed) getMXEPublicKey
                (privateKey (generateX25519Keypair (keyEntropy entropy)))
  = 1000000000 * 256 ^ 28.
Proof. vm_compute. reflexivity. Qed.

(** C7 as stated fails: for the value 2^256, which does not fit the
    block, [encrypt] returns a ciphertext, the one it returns for the
    value 1; and the plaintext block of the value 1 is not the
    fixed-width big-endian string 00..01. *)
Lemma C7_counterexample :
  encrypt {| key := zeros 32 |} (2 ^ 256) (zeros 16)
  = 1 :: repeat 0 31
  /\ encrypt {| key := zeros 32 |} (2 ^ 256) (zeros 16)
     = encrypt {| key := zeros 32 |} 1 (zeros 16)
  /\ plainBytes 1 <> repeat 0 31 ++ [1].
Proof.
  repeat split; try (vm_compute; reflexivity).
  vm_compute. discriminate.
Qed.

(** C7, amended: [encrypt] never fails and its ciphertext has 32 bytes;
    a value of at least 2^256 is not rejected: it is sealed as the value
    made of the 32 most significant bytes of its big-endian encoding,
    the lower bytes being dropped. *)
Theorem C7_encrypt_truncates_large_values
    (this : SimplifiedRescueCipher) (v : Z) (nonce : list Z) :
  2 ^ 256 <= v ->
  let dropped := (length (bigIntToBytes v) - 32)%nat in
  let v' := v / 256 ^ Z.of_nat dropped in
  length (encrypt this v nonce) = 32%nat
  /\ (0 < dropped)%nat
  /\ 256 ^ 31 <= v' < 2 ^ 256
  /\ encrypt this v nonce = encrypt this v' nonce.
Proof.
  intros Hv dropped v'.
  assert (Hlong : (32 < length (bigIntToBytes v))%nat).
  { destruct (Nat.le_gt_cases (length (bigIntToBytes v)) 32) as [Hle | Hgt];
      [| assumption].
    apply (bigIntToBytes_length_le 32) in Hle; [| lia].
    change (256 ^ Z.of_nat 32) with (2 ^ 256) in Hle. lia. }
  assert (Hlen : length (bigIntToBytes v) = (32 + dropped)%nat)
    by (subst dropped; lia).
  pose proof (firstn_bigIntToBytes dropped v Hlen) as Hcut.
  fold v' in Hcut.
  assert (Hlen' : length (bigIntToBytes v') = 32%nat).
  { rewrite <- Hcut, length_firstn. lia. }
  assert (Hv' : 0 <= v').
  { subst v'. apply Z.div_pos; [lia | apply Z.pow_pos_nonneg; lia]. }
  split; [apply encrypt_length |].
  split; [subst dropped; lia |].
  split.
  - split.
    + destruct (Z_lt_dec v' (256 ^ 31)) as [Hsmall | Hbig]; [| lia].
      apply (bigIntToBytes_length_le 31 v' Hv') in Hsmall. lia.
    + change (2 ^ 256) with (256 ^ Z.of_nat 32).
      apply (bigIntToBytes_length_le 32 v' Hv'). lia.
  - apply encrypt_same_plainBytes.
    rewrite (plainBytes_long v dropped Hlen). fold v'.
    rewrite plainBytes_short by lia.
    rewrite Hlen'. simpl repeat. now rewrite app_nil_r.
Qed.

Lemma C7_encrypt_truncates_large_values_witness :
  let this := {| key := zeros 32 |} in
  let v := 2 ^ 256 + 5 in
  let dropped := (length (bigIntToBytes v) - 32)%nat in
  let v' := v / 256 ^ Z.of_nat dropped in
  length (encrypt this v (zeros 16)) = 32%nat
  /\ (0 < dropped)%nat
  /\ 256 ^ 31 <= v' < 2 ^ 256
  /\ encrypt this v (zeros 16) = encrypt this v' (zeros 16).
Proof.
  apply (C7_encrypt_truncates_large_values {| key := zeros 32 |} (2 ^ 256 + 5) (zeros 16)).
  vm_compute. discriminate.
Defined.

End SealingFacts.

(** ** Order of numbers *)

Module NumberFacts.
Import JS.

Ltac compare_cases :=
  repeat match goal with
  | |- context [(?a ?= ?b)%Z] =>
      let H := fresh in destruct (Z.compare_spec a b) as [H | H | H]
  | |- context [(?a ?= ?b)%positive] =>
      let H := fresh in destruct (Pos.compare_spec a b) as [H | H | H]
  | H : context [(?a ?= ?b)%Z] |- _ =>
      let H' := fresh in destruct (Z.compare_spec a b) as [H' | H' | H']
  | H : context [(?a ?= ?b)%positive] |- _ =>
      let H' := fresh in destruct (Pos.compare_spec a b) as [H' | H' | H']
  end.

Ltac by_cases x :=
  destruct x as [[|] | [|] | | [|] ? ?].

Ltac order_tac :=
  unfold lt, le, gt, SFltb, SFleb, SFcompare in *;
  change (Pos.compare_cont Eq) with Pos.compare in *;
  cbn [CompOpp] in *;
  compare_cases; subst; cbn [CompOpp] in *;
  try congruence; try discriminate; try lia; try reflexivity.

Lemma lt_irrefl (x : number) : lt x x = false.
Proof.
  by_cases x; try reflexivity;
    unfold lt, SFltb, SFcompare;
    rewrite Z.compare_refl; change (Pos.compare_cont Eq) with Pos.compare;
    rewrite Pos.compare_refl; reflexivity.
Qed.

Lemma lt_trans (x y z : number) :
  lt x y = true -> lt y z = true -> lt x z = true.
Proof.
  by_cases x; by_cases y; try (cbv; congruence);
    by_cases z; try (cbv; congruence); intros Hxy Hyz; order_tac.
Qed.

(** On numbers other than NaN, [x <= y] is the negation of [y < x]. *)
Lemma le_not_gt (x y : number) :
  isNaN x = false -> isNaN y = false -> le x y = negb (lt y x).
Proof.
  by_cases x; by_cases y; intros Hx Hy; try discriminate; try reflexivity;
    order_tac.
Qed.

(** [0 < x] excludes NaN. *)
Lemma positive_not_NaN (x : number) : lt zero x = true -> isNaN x = false.
Proof. by_cases x; cbv; congruence. Qed.

(** Positive numbers are totally ordered. *)
Lemma positive_total (x y : number) :
  lt zero x = true -> lt zero y = true ->
  lt x y = true \/ x = y \/ lt y x = true.
Proof.
  destruct x as [[|] | [|] | | [|] mx ex]; try (cbv; congruence);
    destruct y as [[|] | [|] | | [|] my ey]; try (cbv; congruence);
    intros _ _.
  - right; left; reflexivity.
  - right; right; reflexivity.
  - left; reflexivity.
  - unfold lt, SFltb, SFcompare.
    change (Pos.compare_cont Eq) with Pos.compare.
    rewrite (Z.compare_antisym ex ey), (Pos.compare_antisym mx my).
    destruct (Z.compare_spec ex ey) as [He | He | He]; cbn [CompOpp].
    + subst. destruct (Pos.compare_spec mx my) as [Hm | Hm | Hm]; cbn [CompOpp].
      * subst. right; left; reflexivity.
      * left; reflexivity.
      * right; right; reflexivity.
    + left; reflexivity.
    + right; right; reflexivity.
Qed.

Lemma not_lt_lt (m x y : number) :
  isNaN m = false -> isNaN x = false ->
  lt m x = false -> lt m y = true -> lt x y = true.
Proof.
  by_cases m; by_cases x; try (cbv; congruence);
    by_cases y; try (cbv; congruence); intros _ _ Hmx Hmy; order_tac.
Qed.

End NumberFacts.

(** ** Bid validation *)

Module ValidationFacts.
Import JS Data Helpers NumberFacts.

(** C10 (bid amount validation): [validateBid] throws exactly when the
    amount is not a valid number, is not strictly positive, or is
    strictly below the minimum bid; otherwise it returns [true]; an
    amount equal to the minimum bid is accepted. *)
Theorem C10_validateBid_rejects_exactly (amount : value) (minimumBid : number) :
  ((exists m, validateBid amount minimumBid = Throw m)
     <-> (~ valid_number amount \/ ~ strictly_positive amount
          \/ less_than amount minimumBid))
  /\ (validateBid amount minimumBid = Return true
        <-> (valid_number amount /\ strictly_positive amount
             /\ ~ less_than amount minimumBid))
  /\ (forall x, valid_number (VNumber x) -> strictly_positive (VNumber x) ->
        validateBid (VNumber x) x = Return true).
Proof.
  assert (Hnum : forall x min,
    (isNaN x = true \/ lt zero x = false \/ lt x min = true ->
       exists m, validateBid (VNumber x) min = Throw m)
    /\ (isNaN x = false -> lt zero x = true -> lt x min = false ->
          validateBid (VNumber x) min = Return true)).
  { intros x min. unfold validateBid.
    destruct (isNaN x) eqn:Hnan.
    - split; [eauto | discriminate].
    - rewrite (le_not_gt x zero Hnan eq_refl).
      destruct (lt zero x) eqn:Hpos; cbn [negb].
      + destruct (lt x min) eqn:Hlow.
        * split; [eauto | discriminate].
        * split; [intros [? | [? | ?]]; discriminate | reflexivity].
      + split; [eauto | discriminate]. }
  unfold valid_number, strictly_positive, less_than.
  destruct amount as [x | s |].
  - destruct (Hnum x minimumBid) as [Hthrow Hok].
    destruct (isNaN x) eqn:Hnan; [| destruct (lt zero x) eqn:Hpos;
      [destruct (lt x minimumBid) eqn:Hlow |]].
    + split; [| split].
      * split; [| intros _; apply Hthrow; auto].
        intros _. left. intros (y & [= <-] & Hy). congruence.
      * split.
        -- intros Hret. destruct Hthrow as [m Hm]; [auto |]. congruence.
        -- intros [(y & [= <-] & Hy) _]. congruence.
      * intros y (y' & [= <-] & Hy) (y'' & [= <-] & Hy').
        apply (proj2 (Hnum y y)); auto using lt_irrefl.
    + split; [| split].
      * split; [| intros _; apply Hthrow; auto].
        intros _. right; right. eauto.
      * split.
        -- intros Hret. destruct Hthrow as [m Hm]; [auto |]. congruence.
        -- intros (_ & _ & Hno). exfalso. apply Hno. eauto.
      * intros y (y' & [= <-] & Hy) (y'' & [= <-] & Hy').
        apply (proj2 (Hnum y y)); auto using lt_irrefl.
    + split; [| split].
      * split.
        -- intros [m Hm]. rewrite Hok in Hm by auto. discriminate.
        -- intros [Hv | [Hp | (y & [= <-] & Hy)]].
           ++ exfalso. apply Hv. eauto.
           ++ exfalso. apply Hp. eauto.
           ++ congruence.
      * split.
        -- intros _. repeat split; eauto.
           intros (y & [= <-] & Hy). congruence.
        -- intros _. apply Hok; auto.
      * intros y (y' & [= <-] & Hy) (y'' & [= <-] & Hy').
        apply (proj2 (Hnum y y)); auto using lt_irrefl.
    + split; [| split].
      * split; [| intros _; apply Hthrow; auto].
        intros _. right; left. intros (y & [= <-] & Hy). congruence.
      * split.
        -- intros Hret. destruct Hthrow as [m Hm]; [auto |]. congruence.
        -- intros (_ & (y & [= <-] & Hy) & _). congruence.
      * intros y (y' & [= <-] & Hy) (y'' & [= <-] & Hy').
        apply (proj2 (Hnum y y)); auto using lt_irrefl.
  - split; [| split].
    + split; [| intros _; simpl; eauto].
      intros _. left. intros (y & [=] & _).
    + split; [discriminate | intros [(y & [=] & _) _]].
    + intros y (y' & [= <-] & Hy) (y'' & [= <-] & Hy').
      apply (proj2 (Hnum y y)); auto using lt_irrefl.
  - split; [| split].
    + split; [| intros _; simpl; eauto].
      intros _. left. intros (y & [=] & _).
    + split; [discriminate | intros [(y & [=] & _) _]].
    + intros y (y' & [= <-] & Hy) (y'' & [= <-] & Hy').
      apply (proj2 (Hnum y y)); auto using lt_irrefl.
Qed.

(** The minimum bid 0.5 is accepted as a bid. *)
Lemma C10_validateBid_rejects_exactly_witness :
  validateBid (VNumber (lit2 1 (-1))) (lit2 1 (-1)) = Return true.
Proof.
  apply (proj2 (proj2 (C10_validateBid_rejects_exactly
                         (VNumber (lit2 1 (-1))) (lit2 1 (-1))))).
  - exists (lit2 1 (-1)). split; reflexivity.
  - exists (lit2 1 (-1)). split; reflexivity.
Defined.

(** The scenario of the specification: with minimum bid 0.5, the bid
    0.3 is rejected and the bid 0.5 is accepted. *)
Example validateBid_scenario :
  validateBid (VNumber (lit2 5404319552844595 (-54))) (lit2 1 (-1))
  = Throw [Text "Bid must be at least "; Subst (lit2 1 (-1)); Text " SOL"]
  /\ validateBid (VNumber (lit2 1 (-1))) (lit2 1 (-1)) = Return true.
Proof. split; reflexivity. Qed.

End ValidationFacts.

(** ** Winner selection *)

Module WinnerFacts.
Import JS Data WinnerReveal NumberFacts.

(** The loop started from [(m0, w0)] either keeps them, when no bid is
    above [m0], or ends on the first bid that is above [m0] and above
    every bid before it and not below any bid after it. *)
Lemma fold_turn (bids : list Bid) :
  forall m0 w0,
    isNaN m0 = false ->
    Forall validated bids ->
    (fold_left visit bids (m0, w0) = (m0, w0)
     /\ Forall (fun b => lt m0 (amount b) = false) bids)
    \/ (exists pre b post,
          bids = pre ++ b :: post
          /\ fold_left visit bids (m0, w0) = (amount b, bidder b)
          /\ lt m0 (amount b) = true
          /\ Forall (fun b' => lt (amount b') (amount b) = true) pre
          /\ Forall (fun b' => lt (amount b) (amount b') = false) post).
Proof.
  induction bids as [| a rest IH]; intros m0 w0 Hm0 Hvalid.
  - left. split; [reflexivity | constructor].
  - inversion Hvalid as [| ? ? Ha Hrest]; subst.
    pose proof (positive_not_NaN _ Ha) as Hna.
    cbn [fold_left visit]. unfold gt, lt at 1.
    destruct (SFltb m0 (amount a)) eqn:Hbeat;
      change (SFltb m0 (amount a)) with (lt m0 (amount a)) in Hbeat.
    + destruct (IH (amount a) (bidder a) Hna Hrest)
        as [[Hkeep Hnone] | (pre & b & post & -> & Hres & Hab & Hpre & Hpost)].
      * right. exists [], a, rest. split; [reflexivity |].
        split; [exact Hkeep |]. split; [exact Hbeat |].
        split; [constructor | exact Hnone].
      * right. exists (a :: pre), b, post. split; [reflexivity |].
        split; [exact Hres |].
        split; [apply (lt_trans _ _ _ Hbeat Hab) |].
        split; [constructor; assumption | exact Hpost].
    + destruct (IH m0 w0 Hm0 Hrest)
        as [[Hkeep Hnone] | (pre & b & post & -> & Hres & Hmb & Hpre & Hpost)].
      * left. split; [assumption | constructor; assumption].
      * right. exists (a :: pre), b, post. split; [reflexivity |].
        split; [exact Hres |]. split; [exact Hmb |].
        split; [| exact Hpost].
        constructor; [| assumption].
        apply (not_lt_lt m0); assumption.
Qed.

Lemma sorted_after (pre : list Bid) (b : Bid) (post : list Bid) :
  increasing_timestamps (pre ++ b :: post) ->
  Forall (fun b' => timestamp b < timestamp b') post.
Proof.
  unfold increasing_timestamps. induction pre as [| a pre IH]; intros Hs.
  - simpl in Hs. apply StronglySorted_inv in Hs. apply Hs.
  - simpl in Hs. apply StronglySorted_inv in Hs. apply IH, Hs.
Qed.

(** On a non-empty list of validated bids in submission order, the
    selection returns the bidder and the amount of one bid of the list;
    every bid of the list has a strictly smaller amount than that bid,
    or the same amount and then it is that bid or a bid submitted
    later. *)
Lemma select_greatest_earliest (bids : list Bid) :
  bids <> [] ->
  Forall validated bids ->
  increasing_timestamps bids ->
  exists b,
    In b bids
    /\ select bids = (amount b, bidder b)
    /\ forall b', In b' bids ->
         lt (amount b') (amount b) = true
         \/ (amount b' = amount b /\ (b' = b \/ timestamp b < timestamp b')).
Proof.
  intros Hne Hvalid Hsorted.
  destruct (fold_turn bids zero EmptyString eq_refl Hvalid)
    as [[_ Hnone] | (pre & b & post & -> & Hres & _ & Hpre & Hpost)].
  - destruct bids as [| a rest]; [contradiction |].
    inversion Hnone as [| ? ? Ha _]; subst.
    inversion Hvalid as [| ? ? Ha' _]; subst.
    unfold validated in Ha'. congruence.
  - exists b. split; [apply in_elt |]. split; [exact Hres |].
    intros b' Hin. apply in_app_or in Hin.
    destruct Hin as [Hin | [<- | Hin]].
    + left. rewrite Forall_forall in Hpre. now apply Hpre.
    + right. auto.
    + pose proof (sorted_after _ _ _ Hsorted) as Hlater.
      rewrite Forall_forall in Hpost, Hlater, Hvalid.
      assert (Hb : validated b) by (apply Hvalid, in_elt).
      assert (Hb' : validated b')
        by (apply Hvalid, in_or_app; right; right; assumption).
      destruct (positive_total _ _ Hb' Hb) as [Hlt | [Heq | Hgt]].
      * left; assumption.
      * right. split; [assumption | right; now apply Hlater].
      * rewrite (Hpost b' Hin) in Hgt. discriminate.
Qed.

(** The selection does not read the time stamps: of two bids of 5, the
    one that comes first in the list wins, also when its time stamp is
    the later one. *)
Example select_follows_list_order :
  select [Scenario.bid "bidderX" Scenario.five 100;
          Scenario.bid "bidderY" Scenario.five 50]
  = (Scenario.five, "bidderX"%string).
Proof. reflexivity. Qed.

End WinnerFacts.

(** ** The lifecycle *)

Module LifecycleFacts.
Import JS Data Session.

Lemma card_of_In (s : State) (auctionId : string) (a : Auction) :
  card_of s auctionId = Some a -> In a (auctions s) /\ id a = auctionId.
Proof.
  unfold card_of. intros H. apply find_some in H.
  destruct H as [Hin Heq]. split; [assumption |].
  now apply String.eqb_eq.
Qed.

Lemma In_handleUpdateAuction (auctions : list Auction) (auctionId : string)
    (u : Updates) (a' : Auction) :
  In a' (App.handleUpdateAuction auctions auctionId u) ->
  exists a, In a auctions
    /\ ((id a = auctionId /\ a' = spread a u) \/ (id a <> auctionId /\ a' = a)).
Proof.
  unfold App.handleUpdateAuction. intros Hin. apply in_map_iff in Hin.
  destruct Hin as (a & Ha' & Hin). exists a. split; [assumption |].
  destruct (String.eqb_spec (id a) auctionId) as [Heq | Hne]; subst; auto.
Qed.

(** A bid that [handleSubmit] lets through is a validated bid. *)
Lemma handleSubmit_begin_validated
    (connected : bool) (amount amount' : number) (auction : Auction) :
  BidSubmission.handleSubmit_begin connected amount auction = Return amount' ->
  amount' = amount /\ lt zero amount = true.
Proof.
  unfold BidSubmission.handleSubmit_begin, bind, Helpers.validateBid.
  destruct (negb connected); [discriminate |].
  destruct (isNaN amount) eqn:Hnan; [discriminate |].
  rewrite (NumberFacts.le_not_gt amount zero Hnan eq_refl).
  destruct (lt zero amount); cbn [negb]; [| discriminate].
  destruct (lt amount (minimumBid auction)); [discriminate |].
  intros [= <-]. auto.
Qed.

Section Invariant.

Variable P : Auction -> Prop.

Hypothesis P_new :
  forall auctionId publicKey formData now,
    P (AuctionCreator.newAuction auctionId publicKey formData now).
Hypothesis P_attach :
  forall a signature pda, P a -> P (AuctionCreator.attach a signature pda).
Hypothesis P_bid :
  forall a auction b,
    P a -> P auction -> lt zero (amount b) = true ->
    P (spread a (bid_update (bids auction ++ [b]))).
Hypothesis P_finalize :
  forall a w m, P a -> P (spread a (finalize_update w m)).

Lemma handleUpdateAuction_keeps (auctions : list Auction) (auctionId : string)
    (u : Updates) :
  (forall a, P a -> P (spread a u)) ->
  Forall P auctions ->
  Forall P (App.handleUpdateAuction auctions auctionId u).
Proof.
  intros Hu Hall. unfold App.handleUpdateAuction.
  apply Forall_map. eapply Forall_impl; [| exact Hall].
  intros a Ha. cbn. destruct (String.eqb (id a) auctionId); auto.
Qed.

Lemma invariant_suspend (s : State) (p : Pending) :
  invariant P s -> holds_in_pending P p -> invariant P (suspend s p).
Proof.
  intros [Hs Hp] Hc. split; [exact Hs |].
  cbn. apply Forall_app. split; [exact Hp | constructor; [exact Hc | constructor]].
Qed.

Lemma invariant_set_card (s : State) (auctionId : string) (c : CardState) :
  invariant P s -> invariant P (set_card s auctionId c).
Proof. intros [Hs Hp]. split; assumption. Qed.

Lemma invariant_setAuctions (s : State) (updated : list Auction) :
  invariant P s -> Forall P updated -> invariant P (setAuctions s updated).
Proof. intros [Hs Hp] Hu. split; assumption. Qed.

Lemma invariant_drop_pending (s : State) (k : nat) :
  invariant P s -> invariant P (drop_pending s k).
Proof.
  intros [Hs Hp]. split; [exact Hs |]. cbn.
  rewrite Forall_forall in Hp. apply Forall_forall. intros p Hin.
  apply Hp. apply in_app_or in Hin.
  destruct Hin as [Hin | Hin].
  - rewrite <- (firstn_skipn k (pending s)). apply in_or_app. now left.
  - rewrite <- (firstn_skipn (S k) (pending s)). apply in_or_app. now right.
Qed.

Lemma invariant_step (s : State) (e : Event) :
  invariant P s -> invariant P (fst (step s e)).
Proof.
  intros Hinv. pose proof Hinv as [Hstore Hpending].
  destruct e as [connected publicKey auctionId formData now
                | auctionId now | auctionId
                | auctionId connected publicKey amount
                | auctionId now | k env | auctionId]; cbn [step].
  - unfold click_create, AuctionCreator.handleSubmit_begin.
    destruct (AuctionCreator.renders_form connected); [| exact Hinv].
    destruct (negb connected); [exact Hinv |].
    destruct (negb (AuctionCreator.validate formData now)); [exact Hinv |].
    cbn [fst]. apply invariant_suspend; [exact Hinv |].
    split; [| exact I]. cbn [captured]. constructor; [apply P_new | exact Hstore].
  - unfold click_bid_button.
    destruct (card_of s auctionId); [| exact Hinv].
    destruct (AuctionCard.shows_bid_button _ _ _); [| exact Hinv].
    now apply invariant_set_card.
  - unfold click_cancel.
    destruct (_ && _); [| exact Hinv]. now apply invariant_set_card.
  - unfold click_submit.
    destruct (card_of s auctionId) as [a |] eqn:Hcard; [| exact Hinv].
    destruct (_ && _); [| exact Hinv].
    destruct (BidSubmission.handleSubmit_begin _ _ _) as [amount' |] eqn:Hbegin;
      [| exact Hinv].
    apply handleSubmit_begin_validated in Hbegin. destruct Hbegin as [-> Hpos].
    cbn [fst]. apply invariant_suspend.
    + now apply invariant_set_card.
    + split; [| exact Hpos].
      cbn [captured]. apply card_of_In in Hcard. destruct Hcard as [Hin _].
      rewrite Forall_forall in Hstore.
      constructor; [now apply Hstore | now apply Forall_forall].
  - unfold click_finalize.
    destruct (card_of s auctionId) as [a |] eqn:Hcard; [| exact Hinv].
    destruct (_ && _); [| exact Hinv].
    destruct (WinnerReveal.handleFinalize_begin _); [| exact Hinv].
    cbn [fst]. apply invariant_suspend.
    + now apply invariant_set_card.
    + split; [| exact I].
      cbn [captured]. apply card_of_In in Hcard. destruct Hcard as [Hin _].
      rewrite Forall_forall in Hstore.
      constructor; [now apply Hstore | now apply Forall_forall].
  - unfold resume.
    destruct (nth_error (pending s) k) as [p |] eqn:Hk; [| exact Hinv].
    pose proof (invariant_drop_pending s k Hinv) as Hdrop.
    apply nth_error_In in Hk.
    rewrite Forall_forall in Hpending. specialize (Hpending p Hk).
    destruct Hpending as [Hcaptured Hamount].
    destruct p as [snap a | snap a publicKey amount | snap a];
      cbn [captured] in Hcaptured;
      inversion Hcaptured as [| ? ? Ha Hsnap]; subst.
    + unfold AuctionCreator.handleSubmit_resume, bind.
      destruct (chain env) as [[signature pda] | m]; [| exact Hdrop].
      cbn [fst]. apply invariant_setAuctions; [exact Hdrop |].
      unfold App.handleCreateAuction. apply Forall_app.
      split; [exact Hsnap | constructor; [| constructor]].
      now apply P_attach.
    + unfold BidSubmission.handleSubmit_resume, bind.
      destruct (BigInt_floor _) as [lamports | m]; cbn [fst].
      * apply invariant_set_card, invariant_setAuctions; [exact Hdrop |].
        unfold AuctionCard.handleBidSubmitted.
        apply handleUpdateAuction_keeps; [| exact Hsnap].
        intros a' Ha'. now apply (P_bid a' a).
      * now apply invariant_set_card.
    + cbn [fst]. apply invariant_set_card, invariant_setAuctions; [exact Hdrop |].
      unfold WinnerReveal.handleFinalize_resume.
      destruct (WinnerReveal.select (bids a)) as [maxBid winnerAddress].
      unfold AuctionCard.handleFinalized.
      apply handleUpdateAuction_keeps; [| exact Hsnap].
      intros a' Ha'. now apply P_finalize.
  - cbn [fst]. now apply invariant_set_card.
Qed.

Lemma invariant_reachable (s : State) : reachable s -> invariant P s.
Proof.
  induction 1 as [| s e _ IH].
  - split; constructor.
  - now apply invariant_step.
Qed.

End Invariant.

Lemma winner_iff_finalized_reachable (s : State) :
  reachable s -> invariant winner_iff_finalized s.
Proof.
  apply invariant_reachable; unfold winner_iff_finalized.
  - intros. cbn. split; [intros H; now contradiction H | discriminate].
  - intros a signature pda H. exact H.
  - intros a auction b H _ _. exact H.
  - intros a w m _. cbn. split; [reflexivity | discriminate].
Qed.

(** Every bid list of the application holds validated bids only. *)
Lemma bids_validated_reachable (s : State) :
  reachable s ->
  invariant (fun a => Forall WinnerReveal.validated (bids a)) s.
Proof.
  apply invariant_reachable.
  - intros. constructor.
  - intros a signature pda H. exact H.
  - intros a auction b _ H Hb. cbn. apply Forall_app. split; [exact H |].
    constructor; [exact Hb | constructor].
  - intros a w m H. exact H.
Qed.

Lemma reachable_run (trace : list Event) :
  forall s, reachable s -> reachable (run s trace).
Proof.
  induction trace as [| e trace IH]; intros s Hs; [exact Hs |].
  cbn. apply IH. now constructor.
Qed.

(** Once the store says ['finalized'], the card does not render the
    finalize control. *)
Lemma finalize_not_rendered_once_finalized
    (s : State) (auctionId : string) (now : Z) (auction : Auction) :
  card_of s auctionId = Some auction -> status auction = finalized ->
  step s (FinalizeClicked auctionId now) = (s, NotRendered).
Proof.
  intros Hcard Hst. cbn [step]. unfold click_finalize. rewrite Hcard.
  unfold AuctionCard.shows_winner_reveal, AuctionCard.isFinalized.
  rewrite Hst. cbn. now rewrite andb_false_r.
Qed.

(** [handleSubmit] reads nothing of the auction but its minimum bid:
    neither the end time nor the status. *)
Lemma handleSubmit_begin_reads_minimumBid
    (connected : bool) (amount : number) (auction auction' : Auction) :
  minimumBid auction = minimumBid auction' ->
  BidSubmission.handleSubmit_begin connected amount auction
  = BidSubmission.handleSubmit_begin connected amount auction'.
Proof. unfold BidSubmission.handleSubmit_begin. now intros ->. Qed.

Lemma find_handleUpdateAuction (auctions : list Auction) (auctionId : string)
    (u : Updates) (auction : Auction) :
  find (fun a => String.eqb (id a) auctionId) auctions = Some auction ->
  find (fun a => String.eqb (id a) auctionId)
       (App.handleUpdateAuction auctions auctionId u)
  = Some (spread auction u).
Proof.
  unfold App.handleUpdateAuction.
  induction auctions as [| a rest IH]; [discriminate |].
  cbn [find map].
  destruct (String.eqb (id a) auctionId) eqn:Heq.
  - intros [= ->]. cbn [spread id]. now rewrite Heq.
  - rewrite Heq. exact IH.
Qed.

(** A submission from an open form goes through whatever the end time
    and the status of the auction are: nothing but the wallet, the amount
    and the minimum bid is read, and the bid is appended with the time of
    its construction. *)
Lemma submit_ignores_end_time_and_status
    (s : State) (auctionId publicKey : string) (amount : number)
    (env : ResumeEnv) (auction : Auction) (lamports : Z) :
  card_of s auctionId = Some auction ->
  showBidForm (cards s auctionId) = true ->
  isEncrypting (cards s auctionId) = false ->
  Helpers.validateBid (VNumber amount) (minimumBid auction) = Return true ->
  BigInt_floor (mul amount (lit 1000000000)) = Return lamports ->
  exists b,
    bidder b = publicKey /\ Data.amount b = amount
    /\ timestamp b = BidSubmission.now (bid_env env)
    /\ card_of (submitBid s auctionId true publicKey amount env) auctionId
       = Some (spread auction (bid_update (bids auction ++ [b]))).
Proof.
  intros Hcard Hform Hidle Hvalid Hlamports.
  pose proof (card_of_In _ _ _ Hcard) as [_ Hid].
  set (c := {| showBidForm := true; isEncrypting := true;
               isFinalizing := isFinalizing (cards s auctionId) |}).
  assert (Hclick :
    fst (step s (SubmitClicked auctionId true publicKey amount))
    = suspend (set_card s auctionId c)
              (AwaitBid (auctions s) auction publicKey amount)).
  { cbn [step].
    unfold click_submit, AuctionCard.shows_bid_form, BidSubmission.renders_form.
    rewrite Hcard, Hform, Hidle.
    unfold BidSubmission.handleSubmit_begin. cbn [negb andb].
    rewrite Hvalid. reflexivity. }
  unfold submitBid, run. cbn [fold_left]. rewrite Hclick.
  cbn [step]. unfold resume. cbn [pending suspend set_card].
  rewrite nth_error_app2 by lia. rewrite Nat.sub_diag. cbn [nth_error].
  unfold BidSubmission.handleSubmit_resume. rewrite Hlamports. cbn [bind fst].
  eexists. split; [| split; [| split]].
  4: { unfold card_of. cbn [auctions set_card setAuctions drop_pending].
       unfold AuctionCard.handleBidSubmitted. rewrite Hid.
       apply find_handleUpdateAuction. exact Hcard. }
  all: reflexivity.
Qed.

(** C4 (winner selection): for every auction that the application
    holds, in the store or in a suspended handler, with a non-empty bid
    list in submission order, the settlement passes to [onFinalized]
    the bidder and the amount of one bid of the list; every bid of the
    list has a strictly smaller amount than that bid, or the same
    amount and then it is that bid or a bid submitted later. *)
Theorem C4_settlement_selects_greatest_earliest (s : State) (a : Auction) :
  reachable s ->
  In a (auctions s) \/ (exists p, In p (pending s) /\ In a (captured p)) ->
  bids a <> [] ->
  WinnerReveal.increasing_timestamps (bids a) ->
  exists b,
    In b (bids a)
    /\ WinnerReveal.select (bids a) = (amount b, bidder b)
    /\ (forall onFinalized,
          WinnerReveal.handleFinalize_resume onFinalized a
          = onFinalized (bidder b) (amount b))
    /\ forall b', In b' (bids a) ->
         lt (amount b') (amount b) = true
         \/ (amount b' = amount b /\ (b' = b \/ timestamp b < timestamp b')).
Proof.
  intros Hs Hin Hne Hsorted.
  apply bids_validated_reachable in Hs. destruct Hs as [Hstore Hpending].
  assert (Hvalid : Forall WinnerReveal.validated (bids a)).
  { destruct Hin as [Hin | (p & Hp & Hin)].
    - rewrite Forall_forall in Hstore. now apply Hstore.
    - rewrite Forall_forall in Hpending. destruct (Hpending p Hp) as [Hc _].
      rewrite Forall_forall in Hc. now apply Hc. }
  destruct (WinnerFacts.select_greatest_earliest (bids a) Hne Hvalid Hsorted)
    as (b & Hb & Hsel & Hall).
  exists b. split; [exact Hb |]. split; [exact Hsel |]. split; [| exact Hall].
  intros onFinalized. unfold WinnerReveal.handleFinalize_resume.
  now rewrite Hsel.
Qed.

Lemma C4_settlement_selects_greatest_earliest_witness :
  let s := run initial (Scenario.created ++ Scenario.bid_of_X ++ Scenario.bid_of_Y) in
  let a := nth 0 (auctions s) Scenario.blank_auction in
  exists b,
    In b (bids a)
    /\ WinnerReveal.select (bids a) = (amount b, bidder b)
    /\ (forall onFinalized,
          WinnerReveal.handleFinalize_resume onFinalized a
          = onFinalized (bidder b) (amount b))
    /\ forall b', In b' (bids a) ->
         lt (amount b') (amount b) = true
         \/ (amount b' = amount b /\ (b' = b \/ timestamp b < timestamp b')).
Proof.
  intros s a.
  apply (C4_settlement_selects_greatest_earliest s a).
  - apply reachable_run, reachable_initial.
  - left. apply nth_In. vm_compute. constructor.
  - vm_compute. discriminate.
  - unfold WinnerReveal.increasing_timestamps. vm_compute.
    repeat constructor.
Defined.

(** The store after a settlement that runs from the click to its end
    with no other handler in between. *)
Lemma settle_store
    (s : State) (auctionId : string) (now : Z) (env : ResumeEnv)
    (auction : Auction) :
  card_of s auctionId = Some auction ->
  AuctionCard.shows_winner_reveal now auction = true ->
  isFinalizing (cards s auctionId) = false ->
  bids auction <> [] ->
  auctions (settle s auctionId now env)
  = AuctionCard.handleFinalized (App.handleUpdateAuction (auctions s)) auction
      (snd (WinnerReveal.select (bids auction)))
      (fst (WinnerReveal.select (bids auction))).
Proof.
  intros Hcard Hshown Hidle Hbids.
  unfold settle, run. cbn [fold_left step].
  unfold click_finalize. rewrite Hcard, Hshown, Hidle.
  unfold WinnerReveal.handleFinalize_begin.
  destruct (bids auction) as [| b rest] eqn:Hb; [contradiction |].
  cbn [length Nat.eqb andb negb fst].
  unfold resume. cbn [pending suspend set_card].
  rewrite nth_error_app2 by lia. rewrite Nat.sub_diag. cbn [nth_error fst].
  cbn [auctions set_card setAuctions].
  unfold WinnerReveal.handleFinalize_resume. rewrite Hb.
  now destruct (WinnerReveal.select (b :: rest)).
Qed.

(** C8 (winner set exactly when finalized): in every state the
    application reaches, every auction of the store has its winner set
    exactly when its status is finalized; a created auction is active
    with no winner; the update of a finalization keeps the identifiers
    of the store, replaces the auction by the auction with status
    finalized, the winner and the winning bid set together, and leaves
    no auction of that identifier otherwise; and a settlement that runs
    to its end leaves the auction in the store with status finalized and
    the selected bidder and amount as winner and winning bid. *)
Theorem C8_winner_set_iff_finalized :
  (forall s, reachable s ->
     forall a, In a (auctions s) ->
       (winner a <> None <-> status a = finalized))
  /\ (forall auctionId publicKey formData now,
        status (AuctionCreator.newAuction auctionId publicKey formData now) = active
        /\ winner (AuctionCreator.newAuction auctionId publicKey formData now) = None)
  /\ (forall auctions auction winnerAddress maxBid,
        let updated :=
          AuctionCard.handleFinalized (App.handleUpdateAuction auctions)
            auction winnerAddress maxBid in
        map id updated = map id auctions
        /\ (In auction auctions ->
            In (spread auction (finalize_update winnerAddress maxBid)) updated)
        /\ (find (fun a => String.eqb (id a) (id auction)) auctions = Some auction ->
            find (fun a => String.eqb (id a) (id auction)) updated
            = Some (spread auction (finalize_update winnerAddress maxBid)))
        /\ (forall a', In a' updated -> id a' = id auction ->
            status a' = finalized /\ winner a' = Some winnerAddress
            /\ winningBid a' = Some maxBid))
  /\ (forall s auctionId now env auction,
        card_of s auctionId = Some auction ->
        AuctionCard.shows_winner_reveal now auction = true ->
        isFinalizing (cards s auctionId) = false ->
        bids auction <> [] ->
        exists a',
          card_of (settle s auctionId now env) auctionId = Some a'
          /\ In a' (auctions (settle s auctionId now env))
          /\ status a' = finalized
          /\ winner a' = Some (snd (WinnerReveal.select (bids auction)))
          /\ winningBid a' = Some (fst (WinnerReveal.select (bids auction)))).
Proof.
  split; [| split; [| split]].
  - intros s Hs a Hin. apply winner_iff_finalized_reachable in Hs.
    destruct Hs as [Hstore _]. rewrite Forall_forall in Hstore.
    now apply Hstore.
  - intros. split; reflexivity.
  - intros auctions auction winnerAddress maxBid updated. subst updated.
    unfold AuctionCard.handleFinalized.
    split; [| split; [| split]].
    + unfold App.handleUpdateAuction. rewrite map_map. apply map_ext.
      intros a. now destruct (String.eqb (id a) (id auction)).
    + intros Hin. unfold App.handleUpdateAuction. apply in_map_iff.
      exists auction. split; [| exact Hin]. now rewrite String.eqb_refl.
    + apply find_handleUpdateAuction.
    + intros a' Hin Hid. apply In_handleUpdateAuction in Hin.
      destruct Hin as (a & _ & [[_ ->] | [Hne ->]]).
      * repeat split.
      * congruence.
  - intros s auctionId now env auction Hcard Hshown Hidle Hbids.
    pose proof (card_of_In _ _ _ Hcard) as [_ Hid].
    pose proof (settle_store s auctionId now env auction Hcard Hshown Hidle Hbids)
      as Hstore.
    assert (Hfound :
      card_of (settle s auctionId now env) auctionId
      = Some (spread auction
                (finalize_update (snd (WinnerReveal.select (bids auction)))
                                 (fst (WinnerReveal.select (bids auction)))))).
    { unfold card_of. rewrite Hstore. unfold AuctionCard.handleFinalized.
      rewrite Hid. now apply find_handleUpdateAuction. }
    eexists. split; [exact Hfound |].
    split; [exact (proj1 (card_of_In _ _ _ Hfound)) |].
    repeat split.
Qed.

Lemma C8_winner_set_iff_finalized_witness :
  let s := run initial (Scenario.created ++ Scenario.bid_of_X ++ Scenario.bid_of_Y) in
  let s' := settle s "auction-1"%string 4000000 (Scenario.env EmptyString 4005500) in
  let auction := nth 0 (auctions s) Scenario.blank_auction in
  (forall a, In a (auctions s') -> winner a <> None <-> status a = finalized)
  /\ exists a',
       card_of s' "auction-1"%string = Some a'
       /\ In a' (auctions s')
       /\ status a' = finalized
       /\ winner a' = Some (snd (WinnerReveal.select (bids auction)))
       /\ winningBid a' = Some (fst (WinnerReveal.select (bids auction))).
Proof.
  intros s s' auction. split.
  - apply (proj1 C8_winner_set_iff_finalized s').
    apply reachable_run, reachable_run, reachable_initial.
  - apply (proj2 (proj2 (proj2 C8_winner_set_iff_finalized))
             s "auction-1"%string 4000000 (Scenario.env EmptyString 4005500) auction).
    + reflexivity.
    + reflexivity.
    + reflexivity.
    + vm_compute. discriminate.
Defined.

(** C9 (settlement with no bid): when the bid list of the auction is
    empty, a click on the finalize control leaves the state of the
    application as it is, the whole settlement does too, and where the
    control is rendered the outcome is the alert that no bids were
    submitted. *)
Theorem C9_finalize_without_bids
    (s : State) (auctionId : string) (now : Z) (env : ResumeEnv)
    (auction : Auction) :
  card_of s auctionId = Some auction ->
  bids auction = [] ->
  WinnerReveal.handleFinalize_begin auction
    = Throw [Text "No bids submitted for this auction"]
  /\ fst (step s (FinalizeClicked auctionId now)) = s
  /\ settle s auctionId now env = s
  /\ (AuctionCard.shows_winner_reveal now auction = true ->
      isFinalizing (cards s auctionId) = false ->
      step s (FinalizeClicked auctionId now)
      = (s, Shown [Text "No bids submitted for this auction"])).
Proof.
  intros Hcard Hbids.
  assert (Hbegin : WinnerReveal.handleFinalize_begin auction
                   = Throw [Text "No bids submitted for this auction"]).
  { unfold WinnerReveal.handleFinalize_begin. now rewrite Hbids. }
  assert (Hstep : fst (step s (FinalizeClicked auctionId now)) = s).
  { cbn [step]. unfold click_finalize. rewrite Hcard, Hbegin.
    now destruct (_ && _). }
  split; [exact Hbegin |]. split; [exact Hstep |]. split.
  - unfold settle, run. cbn [fold_left]. rewrite Hstep.
    cbn [step]. unfold resume.
    replace (nth_error (pending s) (length (pending s))) with (@None Pending);
      [reflexivity |].
    symmetry. apply nth_error_None. lia.
  - intros Hshown Hidle. cbn [step]. unfold click_finalize.
    now rewrite Hcard, Hbegin, Hshown, Hidle.
Qed.

Lemma C9_finalize_without_bids_witness :
  let s := run initial Scenario.created in
  let auction :=
    AuctionCreator.attach
      (AuctionCreator.newAuction "auction-1" "creator" Scenario.formData 0)
      "signature" "pda" in
  WinnerReveal.handleFinalize_begin auction
    = Throw [Text "No bids submitted for this auction"]
  /\ fst (step s (FinalizeClicked "auction-1" 4000000)) = s
  /\ settle s "auction-1" 4000000 (Scenario.env EmptyString 4005500) = s
  /\ (AuctionCard.shows_winner_reveal 4000000 auction = true ->
      isFinalizing (cards s "auction-1") = false ->
      step s (FinalizeClicked "auction-1" 4000000)
      = (s, Shown [Text "No bids submitted for this auction"])).
Proof.
  intros s auction.
  apply (C9_finalize_without_bids s "auction-1" 4000000
           (Scenario.env EmptyString 4005500) auction).
  - reflexivity.
  - reflexivity.
Defined.

(** C6 (late bids), evaluated on two runs. In the first the form is
    opened before the close and the bid is submitted an hour after the
    close: the bid is appended, with its time stamp after the end time.
    In the second the bid is submitted after the auction was finalized:
    the bid is appended to the finalized auction. *)
Theorem C6_late_bid_is_appended :
  (exists a b,
     Scenario.record (run initial (Scenario.created ++ Scenario.late_bid)) = Some a
     /\ endTime a = 3600000
     /\ bids a = [b]
     /\ bidder b = "bidder-Y"%string
     /\ timestamp b = 7200000)
  /\ (exists a b1 b2,
        Scenario.record
          (run initial (Scenario.created ++ Scenario.bid_of_X
                        ++ Scenario.bid_after_finalization)) = Some a
        /\ status a = finalized
        /\ bids a = [b1; b2]
        /\ bidder b2 = "bidder-Y"%string
        /\ timestamp b2 = 4100000).
Proof.
  split.
  - eexists. eexists. split; [vm_compute; reflexivity |]. repeat split.
  - eexists. eexists. eexists. split; [vm_compute; reflexivity |]. repeat split.
Qed.

(** C5 (settlement at most once), evaluated on a run. The finalize
    control is clicked after the close and, while that handler waits, a
    bid is submitted from a form opened before the close. The
    finalization ends and assigns bidder-X. Then the submission ends:
    it writes the auction as it was when the submission started, with
    the new bid, so the auction is active again with no winner. The
    finalize control is rendered again, and the second finalization
    assigns bidder-Y. *)
Theorem C5_winner_assigned_twice :
  let s1 := run initial (Scenario.created ++ Scenario.bid_of_X
                         ++ Scenario.overlapping ++ Scenario.finalization_ends) in
  let s2 := run s1 Scenario.submission_ends in
  let s3 := run s2 Scenario.finalized_again in
  option_map (fun a => (status a, winner a)) (Scenario.record s1)
    = Some (finalized, Some "bidder-X"%string)
  /\ option_map (fun a => (status a, winner a)) (Scenario.record s2)
     = Some (active, None)
  /\ snd (step s2 (FinalizeClicked "auction-1" 4010000)) = Done
  /\ option_map (fun a => (status a, winner a)) (Scenario.record s3)
     = Some (finalized, Some "bidder-Y"%string).
Proof. cbv zeta. repeat split; vm_compute; reflexivity. Qed.

(** The same loss without a late bid: while the first auction is being
    finalized, a bid is submitted on the second auction, which is open.
    The finalization ends and assigns bidder-X; the submission ends and
    writes the store as it was when it started: the first auction is
    active again, with no winner. *)
Example finalization_lost_to_a_bid_elsewhere :
  let s1 := run initial (Scenario.created ++ Scenario.bid_of_X
                         ++ Scenario.second_auction
                         ++ Scenario.overlapping_elsewhere
                         ++ Scenario.finalization_ends) in
  let s2 := run s1 Scenario.submission_ends in
  option_map (fun a => (status a, winner a)) (Scenario.record s1)
    = Some (finalized, Some "bidder-X"%string)
  /\ option_map (fun a => (status a, winner a)) (Scenario.record s2)
     = Some (active, None).
Proof. cbv zeta. split; vm_compute; reflexivity. Qed.




End LifecycleFacts.

(** ** More on the encoding and the sealing scheme *)

Module SealingExtras.
Import JS ArciumEncryption EncodingFacts Terms.

Lemma bytesToBigInt_bound (l : list Z) :
  Uint8.bytes l -> 0 <= bytesToBigInt l < 256 ^ Z.of_nat (length l).
Proof.
  induction l as [| b l IH] using rev_ind; intros Hl.
  - cbn. lia.
  - unfold Uint8.bytes in Hl. apply Forall_app in Hl. destruct Hl as [Hl Hb].
    inversion Hb as [| ? ? Hb0 _]; subst.
    specialize (IH Hl).
    rewrite bytesToBigInt_snoc, length_app, Nat.add_comm. cbn [length Nat.add].
    rewrite Nat2Z.inj_succ, Z.pow_succ_r by lia. lia.
Qed.

Lemma fill_bytes (n : nat) (f : nat -> Z) : Uint8.bytes (Uint8.fill n f).
Proof.
  unfold Uint8.bytes, Uint8.fill. apply Forall_map, Forall_forall.
  intros i _. unfold Uint8.store. apply Z.mod_pos_bound. lia.
Qed.

Lemma store_bytes (l : list Z) : Uint8.bytes l -> map Uint8.store l = l.
Proof.
  unfold Uint8.bytes. induction 1 as [| b l Hb _ IH]; [reflexivity |].
  cbn. rewrite IH. unfold Uint8.store. now rewrite Z.mod_small.
Qed.

Lemma bigIntToBytes_head (v : Z) : no_leading_zero (bigIntToBytes v).
Proof.
  induction v as [v IH] using (well_founded_induction (Z.lt_wf 0)).
  destruct (Z_lt_dec 0 v) as [Hpos | Hneg].
  - rewrite bigIntToBytes_pos by assumption.
    destruct (Z.eq_dec (v / 256) 0) as [Hq | Hq].
    + rewrite Hq, bigIntToBytes_nonpos by lia. cbn.
      pose proof (Z.div_mod v 256 ltac:(lia)). lia.
    + assert (Hq0 : 0 <= v / 256 < v)
        by (split; [apply Z.div_pos; lia | apply Z.div_lt; lia]).
      specialize (IH _ Hq0).
      destruct (bigIntToBytes (v / 256)) as [| b l] eqn:E.
      * rewrite bigIntToBytes_pos in E by lia.
        now destruct (bigIntToBytes (v / 256 / 256)).
      * exact IH.
  - now rewrite bigIntToBytes_nonpos by lia.
Qed.

(** X1. Encoding then decoding gives the value back, and the encoding is
    a byte array without a leading zero byte. *)
Theorem X1_bytesToBigInt_bigIntToBytes (v : Z) :
  0 <= v ->
  bytesToBigInt (bigIntToBytes v) = v
  /\ Uint8.bytes (bigIntToBytes v)
  /\ no_leading_zero (bigIntToBytes v).
Proof.
  intros Hv. split; [now apply bytesToBigInt_bigIntToBytes |].
  split; [apply bigIntToBytes_bytes | apply bigIntToBytes_head].
Qed.

Lemma X1_bytesToBigInt_bigIntToBytes_witness :
  bytesToBigInt (bigIntToBytes 1000000000) = 1000000000
  /\ Uint8.bytes (bigIntToBytes 1000000000)
  /\ no_leading_zero (bigIntToBytes 1000000000).
Proof. apply (X1_bytesToBigInt_bigIntToBytes 1000000000). lia. Defined.

(** X2. Decoding then encoding gives a byte array back when it has no
    leading zero byte. *)
Theorem X2_bigIntToBytes_bytesToBigInt (bytes : list Z) :
  Uint8.bytes bytes -> no_leading_zero bytes ->
  bigIntToBytes (bytesToBigInt bytes) = bytes.
Proof.
  induction bytes as [| b l IH] using rev_ind; intros Hbytes Hhead.
  - now rewrite bigIntToBytes_nonpos by (cbn; lia).
  - unfold Uint8.bytes in Hbytes. apply Forall_app in Hbytes.
    destruct Hbytes as [Hl Hb]. inversion Hb as [| ? ? Hb0 _]; subst.
    pose proof (bytesToBigInt_bound l Hl) as Hbound.
    rewrite bytesToBigInt_snoc.
    assert (Hdiv : (bytesToBigInt l * 256 + b) / 256 = bytesToBigInt l).
    { rewrite Z.div_add_l by lia. rewrite Z.div_small by lia. lia. }
    assert (Hmod : (bytesToBigInt l * 256 + b) mod 256 = b).
    { rewrite Z.add_comm, Z.mod_add by lia. now apply Z.mod_small. }
    destruct l as [| a l'].
    + cbn in Hhead. cbn [app].
      change (bytesToBigInt []) with 0 in *.
      rewrite bigIntToBytes_pos by lia. rewrite Hdiv, Hmod.
      now rewrite bigIntToBytes_nonpos by lia.
    + assert (Hl' : bigIntToBytes (bytesToBigInt (a :: l')) = a :: l')
        by (apply IH; [exact Hl | exact Hhead]).
      assert (Hpos : 0 < bytesToBigInt (a :: l')).
      { destruct (Z_lt_dec 0 (bytesToBigInt (a :: l'))); [assumption |].
        rewrite bigIntToBytes_nonpos in Hl' by lia. discriminate. }
      rewrite bigIntToBytes_pos by lia. now rewrite Hdiv, Hmod, Hl'.
Qed.

Lemma X2_bigIntToBytes_bytesToBigInt_witness :
  bigIntToBytes (bytesToBigInt [59; 154; 202; 0]) = [59; 154; 202; 0].
Proof.
  apply (X2_bigIntToBytes_bytesToBigInt [59; 154; 202; 0]).
  - unfold Uint8.bytes. repeat constructor; lia.
  - cbn. lia.
Defined.

(** X3. The encoding of a positive value has exactly [k] bytes when the
    value lies between [256^(k-1)] and [256^k]. *)
Theorem X3_bigIntToBytes_length (v : Z) (k : nat) :
  0 < v ->
  (length (bigIntToBytes v) = S k
   <-> 256 ^ Z.of_nat k <= v < 256 ^ Z.of_nat (S k)).
Proof.
  intros Hv.
  pose proof (bigIntToBytes_length_le k v ltac:(lia)) as Hk.
  pose proof (bigIntToBytes_length_le (S k) v ltac:(lia)) as HSk.
  split.
  - intros Hlen. split.
    + destruct (Z_lt_dec v (256 ^ Z.of_nat k)) as [Hlt | ?]; [| lia].
      apply Hk in Hlt. lia.
    + apply HSk. lia.
  - intros [Hlo Hhi]. apply HSk in Hhi.
    destruct (Nat.le_gt_cases (length (bigIntToBytes v)) k) as [Hle | Hgt];
      [apply Hk in Hle; lia | lia].
Qed.

Lemma X3_bigIntToBytes_length_witness :
  length (bigIntToBytes 1000000000) = 4%nat
  <-> 256 ^ Z.of_nat 3 <= 1000000000 < 256 ^ Z.of_nat 4.
Proof. apply (X3_bigIntToBytes_length 1000000000 3). lia. Defined.

(** X4. Among the values below 2^256, [decrypt] after [encrypt] gives
    the value back exactly for 0 and for the values of 32 bytes. *)
Theorem X4_round_trip_exactly_on_full_blocks
    (this : SimplifiedRescueCipher) (v : Z) (nonce : list Z) :
  Uint8.bytes (key this) -> Uint8.bytes nonce ->
  0 <= v < 2 ^ 256 ->
  (decrypt this (encrypt this v nonce) nonce = v <-> v = 0 \/ 256 ^ 31 <= v).
Proof.
  intros Hkey Hnonce Hv.
  assert (Hlen : (length (bigIntToBytes v) <= 32)%nat).
  { apply (bigIntToBytes_length_le 32); [lia |].
    change (256 ^ Z.of_nat 32) with (2 ^ 256). lia. }
  rewrite decrypt_encrypt_short by (assumption || lia).
  destruct (Z.eq_dec v 0) as [-> | Hnz]; [split; [auto | lia] |].
  destruct (Z_lt_dec v (256 ^ 31)) as [Hsmall | Hbig].
  - assert (Hlen' : (length (bigIntToBytes v) <= 31)%nat)
      by (apply (bigIntToBytes_length_le 31); [lia | exact Hsmall]).
    assert (Hpow : 256 ^ 1 <= 256 ^ Z.of_nat (32 - length (bigIntToBytes v)))
      by (apply Z.pow_le_mono_r; lia).
    change (256 ^ 1) with 256 in Hpow. split; intros H; [nia | lia].
  - assert (Hfull : length (bigIntToBytes v) = 32%nat).
    { destruct (Nat.le_gt_cases (length (bigIntToBytes v)) 31) as [Hle | ?];
        [| lia].
      apply (bigIntToBytes_length_le 31) in Hle; [| lia].
      change (256 ^ Z.of_nat 31) with (256 ^ 31) in Hle. lia. }
    rewrite Hfull. change (256 ^ Z.of_nat (32 - 32)) with 1.
    split; intros _; [right; lia | lia].
Qed.

Lemma X4_round_trip_exactly_on_full_blocks_witness :
  decrypt {| key := repeat 7 32 |}
    (encrypt {| key := repeat 7 32 |} (256 ^ 31 + 5) (repeat 3 16)) (repeat 3 16)
  = 256 ^ 31 + 5
  <-> 256 ^ 31 + 5 = 0 \/ 256 ^ 31 <= 256 ^ 31 + 5.
Proof.
  apply (X4_round_trip_exactly_on_full_blocks
           {| key := repeat 7 32 |} (256 ^ 31 + 5) (repeat 3 16)).
  - unfold Uint8.bytes. simpl. repeat constructor; lia.
  - unfold Uint8.bytes. simpl. repeat constructor; lia.
  - vm_compute. split; [discriminate | reflexivity].
Defined.

(** X5. Whatever the ciphertext, the key and the nonce are, [decrypt]
    returns a value from 0 to 2^256 - 1. *)
Theorem X5_decrypt_range
    (this : SimplifiedRescueCipher) (ciphertext nonce : list Z) :
  0 <= decrypt this ciphertext nonce < 2 ^ 256.
Proof.
  unfold decrypt.
  match goal with |- _ <= bytesToBigInt ?l < _ =>
    pose proof (bytesToBigInt_bound l (fill_bytes _ _)) as H;
    rewrite fill_length in H
  end.
  exact H.
Qed.

(** X6. What [encryptBid] returns passes [verifyEncryption]: 32 bytes of
    ciphertext, 32 bytes of public key, 16 bytes of nonce, each a byte
    array, whatever the random source gave and whatever the amount is. *)
Theorem X6_encryptBid_verifies
    (env : Entropy) (bidAmount : Z) (mxePublicKey : option (list Z)) :
  let sealed := encryptBid env bidAmount mxePublicKey in
  verifyEncryption sealed = true
  /\ Uint8.bytes (enc_ciphertext sealed)
  /\ Uint8.bytes (enc_publicKey sealed)
  /\ Uint8.bytes (enc_nonce sealed).
Proof.
  cbv zeta. unfold verifyEncryption, encryptBid. cbn [enc_ciphertext enc_publicKey enc_nonce].
  unfold encrypt, generateX25519Keypair. cbn [publicKey].
  rewrite !fill_length. repeat split; apply fill_bytes.
Qed.

Lemma recover_byte (b : Z) :
  0 <= b < 256 ->
  ((Uint8.store ((b * 9 + 121) mod 256) - 121) * 57) mod 256 = b.
Proof.
  intros Hb. unfold Uint8.store. rewrite Z.mod_mod by lia.
  rewrite <- Zmult_mod_idemp_l, Zminus_mod_idemp_l, Zmult_mod_idemp_l.
  replace ((b * 9 + 121 - 121) * 57) with (b + b * 2 * 256) by lia.
  rewrite Z.mod_add by lia. now apply Z.mod_small.
Qed.

Lemma recover_generated (entropy : list Z) :
  recover_privateKey (publicKey (generateX25519Keypair entropy))
  = privateKey (generateX25519Keypair entropy).
Proof.
  unfold recover_privateKey, generateX25519Keypair. cbn [publicKey privateKey].
  set (priv := Uint8.fill 32 (fun i => Uint8.get entropy i)).
  apply (nth_ext _ _ 0 0).
  - rewrite length_map. unfold priv. now rewrite !fill_length.
  - intros i Hi. rewrite length_map, fill_length in Hi.
    rewrite (nth_indep _ 0 (((0 - 121) * 57) mod 256))
      by (rewrite length_map, fill_length; assumption).
    rewrite (map_nth (fun p => ((p - 121) * 57) mod 256)).
    change (nth i (Uint8.fill 32 ?f) 0) with (Uint8.get (Uint8.fill 32 f) i).
    rewrite get_fill by assumption.
    apply recover_byte. apply get_byte. unfold priv. apply fill_bytes.
Qed.

(** X7. The public key of a generated key pair gives the private key
    away: each private byte is [(p - 121) * 57 mod 256] of its public
    byte [p]; so the secret of an exchange is computed from the two
    public keys. *)
Theorem X7_private_key_from_public_key (entropy remotePublicKey : list Z) :
  let kp := generateX25519Keypair entropy in
  recover_privateKey (publicKey kp) = privateKey kp
  /\ performKeyExchange (recover_privateKey (publicKey kp)) remotePublicKey
     = performKeyExchange (privateKey kp) remotePublicKey.
Proof.
  cbv zeta. rewrite recover_generated. split; reflexivity.
Qed.

(** X8. A sealed bid is opened with what it publishes: from the public
    key, the nonce and the ciphertext of the bid and the public key of
    the cluster, [decryptResult] with the private key computed from the
    public key returns the amount, shifted to the left end of the block
    as [decrypt] returns it. *)
Theorem X8_sealed_bid_opens_from_public_fields
    (env : Entropy) (bidAmount : Z) (mxePublicKey : list Z) :
  0 <= bidAmount < 2 ^ 256 ->
  let sealed := encryptBid env bidAmount (Some mxePublicKey) in
  decryptResult (enc_ciphertext sealed) (enc_nonce sealed) mxePublicKey
                (recover_privateKey (enc_publicKey sealed))
  = bidAmount * 256 ^ Z.of_nat (32 - length (bigIntToBytes bidAmount)).
Proof.
  intros Hv. cbv zeta.
  unfold encryptBid, decryptResult. cbn [enc_ciphertext enc_publicKey enc_nonce].
  rewrite recover_generated.
  rewrite (store_bytes (encrypt _ _ _)) by (unfold encrypt; apply fill_bytes).
  rewrite (store_bytes (Uint8.fill 16 _)) by apply fill_bytes.
  apply decrypt_encrypt_short.
  - cbn [key]. unfold performKeyExchange. apply fill_bytes.
  - apply fill_bytes.
  - lia.
  - apply (bigIntToBytes_length_le 32); [lia |].
    change (256 ^ Z.of_nat 32) with (2 ^ 256). lia.
Qed.

Lemma X8_sealed_bid_opens_from_public_fields_witness :
  let env := {| keyEntropy := repeat 7 32; nonceEntropy := repeat 3 16;
                clock := 0 |} in
  let sealed := encryptBid env 1000000000 (Some getMXEPublicKey) in
  decryptResult (enc_ciphertext sealed) (enc_nonce sealed) getMXEPublicKey
                (recover_privateKey (enc_publicKey sealed))
  = 1000000000 * 256 ^ Z.of_nat (32 - length (bigIntToBytes 1000000000)).
Proof.
  intros env.
  apply (X8_sealed_bid_opens_from_public_fields env 1000000000 getMXEPublicKey).
  lia.
Defined.

Lemma lxor_common (p q a : Z) : Z.lxor (Z.lxor p a) (Z.lxor q a) = Z.lxor p q.
Proof.
  apply Z.bits_inj'. intros n _. rewrite !Z.lxor_spec.
  now destruct (Z.testbit p n), (Z.testbit q n), (Z.testbit a n).
Qed.

(** X9. Two ciphertexts made with the same key and the same nonce give
    away the difference of their plaintexts: byte by byte, the xor of the
    ciphertexts is the xor of the plaintext blocks. *)
Theorem X9_same_key_and_nonce_cancel
    (this : SimplifiedRescueCipher) (v w : Z) (nonce : list Z) (i : nat) :
  Uint8.bytes (key this) -> Uint8.bytes nonce -> (i < 32)%nat ->
  Z.lxor (Uint8.get (encrypt this v nonce) i) (Uint8.get (encrypt this w nonce) i)
  = Z.lxor (Uint8.get (plainBytes v) i) (Uint8.get (plainBytes w) i).
Proof.
  intros Hkey Hnonce Hi.
  assert (Hbyte : forall u,
    Uint8.get (encrypt this u nonce) i
    = Z.lxor (Uint8.get (plainBytes u) i)
             (Z.lxor (Uint8.get (key this) i)
                     (Uint8.get nonce (i mod length nonce)))).
  { intros u. rewrite encrypt_plainBytes.
    change (map ?f (seq 0 32)) with
      (Uint8.fill 32 (fun i =>
         Z.lxor (Z.lxor (nth i (plainBytes u) 0) (Uint8.get (key this) i))
                (Uint8.get nonce (i mod length nonce)) mod 256)).
    rewrite get_fill by assumption.
    pose proof (get_byte (plainBytes u) i (plainBytes_bytes u)) as Hp.
    pose proof (get_byte _ i Hkey) as Hk.
    pose proof (get_byte _ (i mod length nonce) Hnonce) as Hn.
    pose proof (lxor_byte _ _ Hp Hk) as Hpk.
    pose proof (lxor_byte _ _ Hpk Hn) as Hpkn.
    unfold Uint8.store, Uint8.get in *.
    rewrite Z.mod_mod by lia. rewrite Z.mod_small by assumption.
    apply Z.lxor_assoc. }
  rewrite !Hbyte. apply lxor_common.
Qed.

Lemma X9_same_key_and_nonce_cancel_witness :
  Z.lxor (Uint8.get (encrypt {| key := repeat 7 32 |} 1000 (repeat 3 16)) 0)
         (Uint8.get (encrypt {| key := repeat 7 32 |} 2000 (repeat 3 16)) 0)
  = Z.lxor (Uint8.get (plainBytes 1000) 0) (Uint8.get (plainBytes 2000) 0).
Proof.
  apply (X9_same_key_and_nonce_cancel {| key := repeat 7 32 |} 1000 2000
           (repeat 3 16) 0).
  - unfold Uint8.bytes. simpl. repeat constructor; lia.
  - unfold Uint8.bytes. simpl. repeat constructor; lia.
  - lia.
Defined.

End SealingExtras.

(** ** The text helpers *)

Module TextFacts.
Import Helpers.

Lemma length_append (s1 s2 : string) :
  String.length (s1 ++ s2) = (String.length s1 + String.length s2)%nat.
Proof. induction s1 as [| c s1 IH]; cbn; [reflexivity | now rewrite IH]. Qed.

Lemma length_substring (s : string) :
  forall n m,
    String.length (substring n m s) = Nat.min m (String.length s - n).
Proof.
  induction s as [| c s IH]; intros [| n] [| m]; cbn; try reflexivity.
  - now rewrite IH, Nat.sub_0_r.
  - apply IH.
  - apply IH.
Qed.

Lemma substring_all (s : string) : substring 0 (String.length s) s = s.
Proof. induction s as [| c s IH]; cbn; [reflexivity | now rewrite IH]. Qed.

(** X10. With a suffix that fits into [maxLength], [truncateString]
    returns at most [maxLength] characters: the string itself when it is
    short enough, otherwise its first [maxLength - suffix.length]
    characters followed by the suffix, [maxLength] characters in all. *)
Theorem X10_truncateString_fits (str suffix : string) (maxLength : Z) :
  Z.of_nat (String.length suffix) <= maxLength ->
  let keep := Z.to_nat (maxLength - Z.of_nat (String.length suffix)) in
  (Z.of_nat (String.length str) <= maxLength ->
     truncateString str maxLength suffix = str)
  /\ (maxLength < Z.of_nat (String.length str) ->
        truncateString str maxLength suffix
        = (substring 0 keep str ++ suffix)%string
        /\ Z.of_nat (String.length (truncateString str maxLength suffix))
           = maxLength)
  /\ Z.of_nat (String.length (truncateString str maxLength suffix)) <= maxLength.
Proof.
  intros Hfit keep. unfold truncateString.
  destruct (Z.leb_spec (Z.of_nat (String.length str)) maxLength) as [Hshort | Hlong].
  - split; [reflexivity |]. split; [lia | exact Hshort].
  - assert (Hslice :
      slice str 0 (maxLength - Z.of_nat (String.length suffix))
      = substring 0 keep str).
    { unfold slice, slice_index.
      destruct (Z.ltb_spec 0 0) as [? | _]; [lia |].
      destruct (Z.ltb_spec (maxLength - Z.of_nat (String.length suffix)) 0)
        as [? | _]; [lia |].
      rewrite Z.min_l by lia. rewrite Z.min_l by lia.
      rewrite Z.sub_0_r, Z.max_l by lia. reflexivity. }
    rewrite Hslice.
    assert (Hlen : Z.of_nat (String.length (substring 0 keep str ++ suffix))
                   = maxLength).
    { rewrite length_append, length_substring, Nat.sub_0_r.
      rewrite Nat.min_l by (subst keep; lia). subst keep. lia. }
    split; [lia |]. split; [intros _; split; [reflexivity | exact Hlen] | lia].
Qed.

Lemma X10_truncateString_fits_witness :
  let keep := Z.to_nat (8 - Z.of_nat (String.length "...")) in
  (Z.of_nat (String.length "Porcelain vase") <= 8 ->
     truncateString "Porcelain vase" 8 "..." = "Porcelain vase"%string)
  /\ (8 < Z.of_nat (String.length "Porcelain vase") ->
        truncateString "Porcelain vase" 8 "..."
        = (substring 0 keep "Porcelain vase" ++ "...")%string
        /\ Z.of_nat (String.length (truncateString "Porcelain vase" 8 "...")) = 8)
  /\ Z.of_nat (String.length (truncateString "Porcelain vase" 8 "...")) <= 8.
Proof.
  apply (X10_truncateString_fits "Porcelain vase" "..." 8). cbn. lia.
Defined.

(** X11. With a [maxLength] below the length of the suffix,
    [truncateString] returns more than [maxLength] characters: the
    negative end index of [slice] counts from the end of the string, so
    the result is the string without its last
    [suffix.length - maxLength] characters, followed by the suffix. *)
Theorem X11_truncateString_overshoots (str suffix : string) (maxLength : Z) :
  maxLength < Z.of_nat (String.length suffix) ->
  maxLength < Z.of_nat (String.length str) ->
  let cut := Z.of_nat (String.length suffix) - maxLength in
  truncateString str maxLength suffix
  = (substring 0 (Z.to_nat (Z.of_nat (String.length str) - cut)) str ++ suffix)%string
  /\ maxLength < Z.of_nat (String.length (truncateString str maxLength suffix)).
Proof.
  intros Hsuffix Hlong cut. unfold truncateString.
  destruct (Z.leb_spec (Z.of_nat (String.length str)) maxLength) as [? | _]; [lia |].
  assert (Hslice :
    slice str 0 (maxLength - Z.of_nat (String.length suffix))
    = substring 0 (Z.to_nat (Z.of_nat (String.length str) - cut)) str).
  { unfold slice, slice_index.
    destruct (Z.ltb_spec 0 0) as [? | _]; [lia |].
    destruct (Z.ltb_spec (maxLength - Z.of_nat (String.length suffix)) 0)
      as [_ | ?]; [| lia].
    rewrite Z.min_l by lia. rewrite Z.sub_0_r. cbn [Z.to_nat].
    f_equal. subst cut. lia. }
  rewrite Hslice. split; [reflexivity |].
  rewrite length_append. lia.
Qed.

Lemma X11_truncateString_overshoots_witness :
  let cut := Z.of_nat (String.length "...") - 2 in
  truncateString "Porcelain" 2 "..."
  = (substring 0 (Z.to_nat (Z.of_nat (String.length "Porcelain") - cut)) "Porcelain"
     ++ "...")%string
  /\ 2 < Z.of_nat (String.length (truncateString "Porcelain" 2 "...")).
Proof.
  apply (X11_truncateString_overshoots "Porcelain" "..." 2); cbn; lia.
Defined.

(** X12. [formatAddress] returns an address of at most
    [startChars + endChars] characters as it is; of a longer one it
    returns the first [startChars] characters, three dots and the last
    [endChars] characters, [startChars + endChars + 3] characters in
    all. *)
Theorem X12_formatAddress_shape (address : string) (startChars endChars : Z) :
  0 <= startChars -> 0 < endChars ->
  let len := Z.of_nat (String.length address) in
  (len <= startChars + endChars ->
     formatAddress address startChars endChars = address)
  /\ (startChars + endChars < len ->
        formatAddress address startChars endChars
        = (substring 0 (Z.to_nat startChars) address ++ "..."
           ++ substring (Z.to_nat (len - endChars)) (Z.to_nat endChars) address)%string
        /\ Z.of_nat (String.length (formatAddress address startChars endChars))
           = startChars + endChars + 3).
Proof.
  intros Hstart Hend len. unfold formatAddress. fold len.
  destruct (Z.leb_spec len (startChars + endChars)) as [Hshort | Hlong].
  - split; [reflexivity | lia].
  - split; [lia |]. intros _.
    assert (Hhead : slice address 0 startChars
                    = substring 0 (Z.to_nat startChars) address).
    { unfold slice, slice_index. fold len.
      destruct (Z.ltb_spec 0 0) as [? | _]; [lia |].
      destruct (Z.ltb_spec startChars 0) as [? | _]; [lia |].
      rewrite Z.min_l by lia. rewrite Z.min_l by lia.
      rewrite Z.sub_0_r, Z.max_l by lia. reflexivity. }
    assert (Htail : slice_from address (- endChars)
                    = substring (Z.to_nat (len - endChars)) (Z.to_nat endChars) address).
    { unfold slice_from, slice, slice_index. fold len.
      destruct (Z.ltb_spec (- endChars) 0) as [_ | ?]; [| lia].
      destruct (Z.ltb_spec len 0) as [? | _]; [lia |].
      rewrite Z.min_id. rewrite Z.max_l by lia.
      replace (len + - endChars) with (len - endChars) by lia.
      f_equal. rewrite Z.max_l by lia. f_equal. lia. }
    rewrite Hhead, Htail. split; [reflexivity |].
    rewrite !length_append, !length_substring. cbn [String.length].
    subst len. lia.
Qed.

Lemma X12_formatAddress_shape_witness :
  let len := Z.of_nat (String.length "bidder-XYZ") in
  (len <= 4 + 4 -> formatAddress "bidder-XYZ" 4 4 = "bidder-XYZ"%string)
  /\ (4 + 4 < len ->
        formatAddress "bidder-XYZ" 4 4
        = (substring 0 (Z.to_nat 4) "bidder-XYZ" ++ "..."
           ++ substring (Z.to_nat (len - 4)) (Z.to_nat 4) "bidder-XYZ")%string
        /\ Z.of_nat (String.length (formatAddress "bidder-XYZ" 4 4)) = 4 + 4 + 3).
Proof. apply (X12_formatAddress_shape "bidder-XYZ" 4 4); lia. Defined.

(** X13. With [endChars = 0], [formatAddress] does not shorten an
    address longer than [startChars]: [slice(-0)] is the whole string,
    so the result is the first [startChars] characters, three dots and
    the whole address. *)
Theorem X13_formatAddress_without_end (address : string) (startChars : Z) :
  0 <= startChars < Z.of_nat (String.length address) ->
  formatAddress address startChars 0
  = (substring 0 (Z.to_nat startChars) address ++ "..." ++ address)%string.
Proof.
  intros Hstart. unfold formatAddress.
  destruct (Z.leb_spec (Z.of_nat (String.length address)) (startChars + 0))
    as [? | _]; [lia |].
  f_equal.
  - unfold slice, slice_index.
    destruct (Z.ltb_spec 0 0) as [? | _]; [lia |].
    destruct (Z.ltb_spec startChars 0) as [? | _]; [lia |].
    rewrite Z.min_l by lia. rewrite Z.min_l by lia.
    rewrite Z.sub_0_r, Z.max_l by lia. reflexivity.
  - f_equal. unfold slice_from, slice, slice_index. cbn [Z.opp].
    destruct (Z.ltb_spec 0 0) as [? | _]; [lia |].
    destruct (Z.ltb_spec (Z.of_nat (String.length address)) 0) as [? | _]; [lia |].
    rewrite Z.min_id. rewrite Z.min_l by lia.
    rewrite Z.sub_0_r, Z.max_l by lia. rewrite Nat2Z.id. apply substring_all.
Qed.

Lemma X13_formatAddress_without_end_witness :
  formatAddress "bidder-XYZ" 4 0
  = (substring 0 (Z.to_nat 4) "bidder-XYZ" ++ "..." ++ "bidder-XYZ")%string.
Proof. apply (X13_formatAddress_without_end "bidder-XYZ" 4). cbn. lia. Defined.

End TextFacts.

(** ** The selection on any list of bids *)

Module SelectionExtras.
Import JS Data WinnerReveal NumberFacts.

Lemma fold_visit_any (bids : list Bid) :
  forall m0 w0,
    let result := fold_left visit bids (m0, w0) in
    Forall (fun b => lt (fst result) (amount b) = false) bids
    /\ (lt m0 (fst result) = true \/ fst result = m0)
    /\ (result = (m0, w0)
        \/ exists b, In b bids /\ result = (amount b, bidder b)
                     /\ lt m0 (amount b) = true).
Proof.
  induction bids as [| a rest IH]; intros m0 w0.
  - cbn. split; [constructor |]. split; auto.
  - cbn [fold_left visit]. unfold gt, lt at 1.
    destruct (SFltb m0 (amount a)) eqn:Hbeat;
      change (SFltb m0 (amount a)) with (lt m0 (amount a)) in Hbeat.
    + destruct (IH (amount a) (bidder a)) as (Hall & Hgrow & Hwho).
      cbv zeta in *.
      set (result := fold_left visit rest (amount a, bidder a)) in *.
      split; [| split].
      * constructor; [| exact Hall].
        destruct Hgrow as [Hlt | ->]; [| apply lt_irrefl].
        apply not_true_is_false. intros Hback.
        pose proof (lt_trans _ _ _ Hlt Hback) as Habs.
        rewrite lt_irrefl in Habs. discriminate.
      * left. destruct Hgrow as [Hlt | ->]; [| exact Hbeat].
        apply (lt_trans _ _ _ Hbeat Hlt).
      * right. destruct Hwho as [-> | (b & Hb & -> & Hab)].
        -- exists a. split; [now left |]. split; [reflexivity | exact Hbeat].
        -- exists b. split; [now right |]. split; [reflexivity |].
           apply (lt_trans _ _ _ Hbeat Hab).
    + destruct (IH m0 w0) as (Hall & Hgrow & Hwho).
      cbv zeta in *.
      set (result := fold_left visit rest (m0, w0)) in *.
      split; [| split].
      * constructor; [| exact Hall].
        destruct Hgrow as [Hlt | ->]; [| exact Hbeat].
        apply not_true_is_false. intros Hback.
        pose proof (lt_trans _ _ _ Hlt Hback) as Habs. congruence.
      * exact Hgrow.
      * destruct Hwho as [-> | (b & Hb & -> & Hmb)]; [now left |].
        right. exists b. split; [now right |]. split; [reflexivity | exact Hmb].
Qed.

(** X18. Whatever the bid list holds, also amounts that are NaN, zero or
    negative: no bid has an amount above the selected amount; a bid is
    selected only with an amount above 0; and when no bid has an amount
    above 0, as on the empty list, the result is the amount 0 with the
    empty address. *)
Theorem X18_select_on_any_list (bids : list Bid) :
  Forall (fun b => gt (amount b) (fst (select bids)) = false) bids
  /\ (select bids = (zero, EmptyString)
      \/ exists b, In b bids /\ select bids = (amount b, bidder b)
                   /\ gt (amount b) zero = true)
  /\ (Forall (fun b => gt (amount b) zero = false) bids ->
      select bids = (zero, EmptyString)).
Proof.
  destruct (fold_visit_any bids zero EmptyString) as (Hall & _ & Hwho).
  cbv zeta in *. fold (select bids) in *.
  split; [exact Hall |]. split; [exact Hwho |].
  intros Hnone. destruct Hwho as [-> | (b & Hb & _ & Hpos)]; [reflexivity |].
  rewrite Forall_forall in Hnone. specialize (Hnone b Hb).
  unfold gt, lt in *. congruence.
Qed.

Lemma X18_select_on_any_list_witness :
  let bids := [Scenario.bid "bidderX" S754_nan 100;
               Scenario.bid "bidderY" zero 200] in
  select bids = (zero, EmptyString).
Proof.
  intros bids. apply (proj2 (proj2 (X18_select_on_any_list bids))).
  repeat constructor.
Defined.

End SelectionExtras.

(** ** The list of auctions and the store *)

Module StoreFacts.
Import JS Data Session LifecycleFacts.

Lemma filter_from_finalized (clock : nat -> Z) (auctions : list Auction) :
  forall i,
    AuctionList.filter_from AuctionList.f_finalized clock i auctions
    = filter (fun a => Status_eqb (status a) finalized) auctions.
Proof.
  induction auctions as [| a rest IH]; intros i; [reflexivity |].
  cbn [AuctionList.filter_from filter AuctionList.shown].
  now rewrite IH.
Qed.

Lemma filter_from_all (clock : nat -> Z) (auctions : list Auction) :
  forall i, AuctionList.filter_from AuctionList.f_all clock i auctions = auctions.
Proof.
  induction auctions as [| a rest IH]; intros i; [reflexivity |].
  cbn [AuctionList.filter_from AuctionList.shown]. now rewrite IH.
Qed.

(** X14. Whatever the clock reads, the callback of the list shows an
    auction under exactly one of the filters active, ended and
    finalized; an auction it shows as ended is not shown as active at a
    later reading; a finalized auction is shown under finalized only,
    at any reading; and whatever the clock reads during the filtering,
    the number on the button finalized is the length of the list under
    the filter finalized, and the filter all shows the store as it
    is, as many auctions as the button all says. *)
Theorem X14_filters_partition (auctions : list Auction) :
  (forall now a,
     (AuctionList.shown AuctionList.f_active now a,
      AuctionList.shown AuctionList.f_ended now a,
      AuctionList.shown AuctionList.f_finalized now a)
     = (true, false, false)
     \/ (AuctionList.shown AuctionList.f_active now a,
         AuctionList.shown AuctionList.f_ended now a,
         AuctionList.shown AuctionList.f_finalized now a)
        = (false, true, false)
     \/ (AuctionList.shown AuctionList.f_active now a,
         AuctionList.shown AuctionList.f_ended now a,
         AuctionList.shown AuctionList.f_finalized now a)
        = (false, false, true))
  /\ (forall now now' a,
        now <= now' ->
        AuctionList.shown AuctionList.f_ended now a = true ->
        AuctionList.shown AuctionList.f_active now' a = false)
  /\ (forall now a,
        status a = finalized ->
        AuctionList.shown AuctionList.f_active now a = false
        /\ AuctionList.shown AuctionList.f_ended now a = false
        /\ AuctionList.shown AuctionList.f_finalized now a = true)
  /\ (forall clock,
        AuctionList.count_finalized auctions
        = length (AuctionList.filteredAuctions AuctionList.f_finalized clock auctions))
  /\ (forall clock,
        AuctionList.filteredAuctions AuctionList.f_all clock auctions = auctions
        /\ AuctionList.count_all auctions
           = length (AuctionList.filteredAuctions AuctionList.f_all clock auctions)).
Proof.
  split; [| split; [| split; [| split]]].
  - intros now a. unfold AuctionList.shown.
    destruct (endTime a <=? now), (Status_eqb (status a) finalized); cbn; auto.
  - intros now now' a Hle. unfold AuctionList.shown.
    destruct (Status_eqb (status a) finalized);
      [now rewrite andb_false_r |].
    rewrite !andb_true_r. intros Hended. apply Z.leb_le in Hended.
    apply negb_false_iff. apply Z.leb_le. lia.
  - intros now a Hst. unfold AuctionList.shown. rewrite Hst. cbn.
    now rewrite !andb_false_r.
  - intros clock. unfold AuctionList.count_finalized, AuctionList.filteredAuctions.
    now rewrite filter_from_finalized.
  - intros clock. unfold AuctionList.count_all, AuctionList.filteredAuctions.
    now rewrite filter_from_all.
Qed.



Lemma resume_out_of_range (s : State) (env : ResumeEnv) :
  step s (Resumed (length (pending s)) env) = (s, NotRendered).
Proof.
  cbn [step]. unfold resume.
  replace (nth_error (pending s) (length (pending s))) with (@None Pending);
    [reflexivity |].
  symmetry. apply nth_error_None. lia.
Qed.



Lemma find_handleUpdateAuction_other (auctions : list Auction)
    (auctionId other : string) (u : Updates) :
  other <> auctionId ->
  find (fun a => String.eqb (id a) other)
       (App.handleUpdateAuction auctions auctionId u)
  = find (fun a => String.eqb (id a) other) auctions.
Proof.
  intros Hne. unfold App.handleUpdateAuction.
  induction auctions as [| a rest IH]; [reflexivity |].
  cbn [find map].
  destruct (String.eqb_spec (id a) auctionId) as [Heq | Hx].
  - cbn [spread id]. destruct (String.eqb_spec (id a) other) as [Ho | _];
      [congruence | exact IH].
  - destruct (String.eqb (id a) other); [reflexivity | exact IH].
Qed.

Lemma drop_last (A : Type) (l : list A) (x : A) :
  firstn (length l) (l ++ [x]) ++ skipn (S (length l)) (l ++ [x]) = l.
Proof.
  rewrite firstn_app, Nat.sub_diag, firstn_all. cbn [firstn].
  rewrite app_nil_r.
  rewrite skipn_all2 by (rewrite length_app; cbn; lia).
  apply app_nil_r.
Qed.

(** X17. A settlement that runs from the click to its end with no other
    handler in between, on an ended auction with bids that is not
    finalized: the auction gets the status finalized with the selected
    bidder and amount, every other auction and the suspended handlers
    stay as they are, and a further settlement of the auction changes
    nothing. *)
Theorem X17_settle_once
    (s : State) (auctionId : string) (now : Z) (env : ResumeEnv)
    (auction : Auction) :
  card_of s auctionId = Some auction ->
  AuctionCard.shows_winner_reveal now auction = true ->
  isFinalizing (cards s auctionId) = false ->
  bids auction <> [] ->
  let s' := settle s auctionId now env in
  card_of s' auctionId
    = Some (spread auction
              (finalize_update (snd (WinnerReveal.select (bids auction)))
                               (fst (WinnerReveal.select (bids auction)))))
  /\ (forall other, other <> auctionId -> card_of s' other = card_of s other)
  /\ pending s' = pending s
  /\ (forall now' env', settle s' auctionId now' env' = s').
Proof.
  intros Hcard Hshown Hidle Hbids s'.
  pose proof (card_of_In _ _ _ Hcard) as [_ Hid].
  set (c := {| showBidForm := showBidForm (cards s auctionId);
               isEncrypting := isEncrypting (cards s auctionId);
               isFinalizing := true |}).
  assert (Hclick :
    fst (step s (FinalizeClicked auctionId now))
    = suspend (set_card s auctionId c) (AwaitFinalize (auctions s) auction)).
  { cbn [step]. unfold click_finalize. rewrite Hcard, Hshown, Hidle.
    unfold WinnerReveal.handleFinalize_begin.
    destruct (bids auction); [contradiction | reflexivity]. }
  assert (Hs' :
    auctions s'
    = App.handleUpdateAuction (auctions s) auctionId
        (finalize_update (snd (WinnerReveal.select (bids auction)))
                         (fst (WinnerReveal.select (bids auction))))
    /\ pending s' = pending s).
  { subst s'. unfold settle, run. cbn [fold_left]. rewrite Hclick.
    cbn [step]. unfold resume. cbn [pending suspend set_card].
    rewrite nth_error_app2 by lia. rewrite Nat.sub_diag. cbn [nth_error fst].
    cbn [auctions pending set_card setAuctions drop_pending suspend].
    split; [| apply drop_last].
    unfold WinnerReveal.handleFinalize_resume, AuctionCard.handleFinalized.
    rewrite Hid. now destruct (WinnerReveal.select (bids auction)). }
  destruct Hs' as [Hstore Hpending].
  assert (Hcard' :
    card_of s' auctionId
    = Some (spread auction
              (finalize_update (snd (WinnerReveal.select (bids auction)))
                               (fst (WinnerReveal.select (bids auction)))))).
  { unfold card_of. rewrite Hstore. now apply find_handleUpdateAuction. }
  split; [exact Hcard' |]. split; [| split; [exact Hpending |]].
  - intros other Hother. unfold card_of. rewrite Hstore.
    now apply find_handleUpdateAuction_other.
  - intros now' env'. unfold settle, run. cbn [fold_left].
    rewrite (finalize_not_rendered_once_finalized s' auctionId now' _ Hcard')
      by reflexivity.
    cbn [fst]. now rewrite resume_out_of_range.
Qed.

Lemma X17_settle_once_witness :
  let s := run initial (Scenario.created ++ Scenario.bid_of_X ++ Scenario.bid_of_Y) in
  let auction := nth 0 (auctions s) Scenario.blank_auction in
  let s' := settle s "auction-1" 4000000 (Scenario.env EmptyString 4005500) in
  card_of s' "auction-1"
    = Some (spread auction
              (finalize_update (snd (WinnerReveal.select (bids auction)))
                               (fst (WinnerReveal.select (bids auction)))))
  /\ (forall other, other <> "auction-1"%string -> card_of s' other = card_of s other)
  /\ pending s' = pending s
  /\ (forall now' env', settle s' "auction-1" now' env' = s').
Proof.
  intros s auction.
  apply (X17_settle_once s "auction-1" 4000000
           (Scenario.env EmptyString 4005500) auction).
  - reflexivity.
  - reflexivity.
  - reflexivity.
  - vm_compute. discriminate.
Defined.

Section CreatedInvariant.

Variable P : Auction -> Prop.

Hypothesis P_new :
  forall auctionId publicKey formData now,
    AuctionCreator.validate formData now = true ->
    P (AuctionCreator.newAuction auctionId publicKey formData now).
Hypothesis P_attach :
  forall a signature pda, P a -> P (AuctionCreator.attach a signature pda).
Hypothesis P_spread : forall a u, P a -> P (spread a u).

Lemma created_invariant_step (s : State) (e : Event) :
  invariant P s -> invariant P (fst (step s e)).
Proof.
  intros Hinv. pose proof Hinv as [Hstore Hpending].
  destruct e as [connected publicKey auctionId formData now
                | auctionId now | auctionId
                | auctionId connected publicKey amount
                | auctionId now | k env | auctionId]; cbn [step].
  - unfold click_create, AuctionCreator.handleSubmit_begin.
    destruct (AuctionCreator.renders_form connected); [| exact Hinv].
    destruct (negb connected); [exact Hinv |].
    destruct (AuctionCreator.validate formData now) eqn:Hvalid;
      cbn [negb]; [| exact Hinv].
    cbn [fst]. apply invariant_suspend; [exact Hinv |].
    split; [| exact I]. cbn [captured].
    constructor; [now apply P_new | exact Hstore].
  - unfold click_bid_button.
    destruct (card_of s auctionId); [| exact Hinv].
    destruct (AuctionCard.shows_bid_button _ _ _); [| exact Hinv].
    now apply invariant_set_card.
  - unfold click_cancel.
    destruct (_ && _); [| exact Hinv]. now apply invariant_set_card.
  - unfold click_submit.
    destruct (card_of s auctionId) as [a |] eqn:Hcard; [| exact Hinv].
    destruct (_ && _); [| exact Hinv].
    destruct (BidSubmission.handleSubmit_begin _ _ _) as [amount' |] eqn:Hbegin;
      [| exact Hinv].
    apply handleSubmit_begin_validated in Hbegin. destruct Hbegin as [-> Hpos].
    cbn [fst]. apply invariant_suspend.
    + now apply invariant_set_card.
    + split; [| exact Hpos].
      cbn [captured]. apply card_of_In in Hcard. destruct Hcard as [Hin _].
      rewrite Forall_forall in Hstore.
      constructor; [now apply Hstore | now apply Forall_forall].
  - unfold click_finalize.
    destruct (card_of s auctionId) as [a |] eqn:Hcard; [| exact Hinv].
    destruct (_ && _); [| exact Hinv].
    destruct (WinnerReveal.handleFinalize_begin _); [| exact Hinv].
    cbn [fst]. apply invariant_suspend.
    + now apply invariant_set_card.
    + split; [| exact I].
      cbn [captured]. apply card_of_In in Hcard. destruct Hcard as [Hin _].
      rewrite Forall_forall in Hstore.
      constructor; [now apply Hstore | now apply Forall_forall].
  - unfold resume.
    destruct (nth_error (pending s) k) as [p |] eqn:Hk; [| exact Hinv].
    pose proof (invariant_drop_pending P s k Hinv) as Hdrop.
    apply nth_error_In in Hk.
    rewrite Forall_forall in Hpending. specialize (Hpending p Hk).
    destruct Hpending as [Hcaptured Hamount].
    destruct p as [snap a | snap a publicKey amount | snap a];
      cbn [captured] in Hcaptured;
      inversion Hcaptured as [| ? ? Ha Hsnap]; subst.
    + unfold AuctionCreator.handleSubmit_resume, bind.
      destruct (chain env) as [[signature pda] | m]; [| exact Hdrop].
      cbn [fst]. apply invariant_setAuctions; [exact Hdrop |].
      unfold App.handleCreateAuction. apply Forall_app.
      split; [exact Hsnap | constructor; [| constructor]].
      now apply P_attach.
    + unfold BidSubmission.handleSubmit_resume, bind.
      destruct (BigInt_floor _) as [lamports | m]; cbn [fst].
      * apply invariant_set_card, invariant_setAuctions; [exact Hdrop |].
        unfold AuctionCard.handleBidSubmitted.
        apply handleUpdateAuction_keeps; [| exact Hsnap].
        intros a' Ha'. now apply P_spread.
      * now apply invariant_set_card.
    + cbn [fst]. apply invariant_set_card, invariant_setAuctions; [exact Hdrop |].
      unfold WinnerReveal.handleFinalize_resume.
      destruct (WinnerReveal.select (bids a)) as [maxBid winnerAddress].
      unfold AuctionCard.handleFinalized.
      apply handleUpdateAuction_keeps; [| exact Hsnap].
      intros a' Ha'. now apply P_spread.
  - cbn [fst]. now apply invariant_set_card.
Qed.

Lemma created_invariant_reachable (s : State) : reachable s -> invariant P s.
Proof.
  induction 1 as [| s e _ IH].
  - split; constructor.
  - now apply created_invariant_step.
Qed.

End CreatedInvariant.

(** X19. From the empty store on, through submissions, settlements
    and overlapping handlers, every auction in every state the
    application reaches has a minimum bid of which [validate] found that
    it is not at most 0, and every bid of the auction has an amount
    above 0. *)
Theorem X19_created_fields_stay_valid (s : State) (a : Auction) :
  reachable s -> In a (auctions s) ->
  le (minimumBid a) zero = false
  /\ Forall (fun b => lt zero (amount b) = true) (bids a).
Proof.
  intros Hs Hin.
  pose proof (bids_validated_reachable s Hs) as [Hbids _].
  rewrite Forall_forall in Hbids. specialize (Hbids a Hin).
  assert (Hinv : invariant (fun a => le (minimumBid a) zero = false) s).
  { apply created_invariant_reachable; [| | | exact Hs].
    - intros auctionId publicKey formData now Hvalid.
      unfold AuctionCreator.validate in Hvalid. cbn.
      apply negb_true_iff in Hvalid.
      apply orb_false_iff in Hvalid. destruct Hvalid as [Hvalid _].
      apply orb_false_iff in Hvalid. destruct Hvalid as [_ Hmin].
      apply orb_false_iff in Hmin. now destruct Hmin as [_ Hmin].
    - intros a0 signature pda H. exact H.
    - intros a0 u H. exact H. }
  destruct Hinv as [Hstore _]. rewrite Forall_forall in Hstore.
  split; [now apply Hstore | exact Hbids].
Qed.

Lemma X19_created_fields_stay_valid_witness :
  let s := run initial (Scenario.created ++ Scenario.bid_of_X
                        ++ Scenario.overlapping ++ Scenario.finalization_ends
                        ++ Scenario.submission_ends) in
  let a := nth 0 (auctions s) Scenario.blank_auction in
  le (minimumBid a) zero = false
  /\ Forall (fun b => lt zero (amount b) = true) (bids a).
Proof.
  intros s a. apply (X19_created_fields_stay_valid s a).
  - apply reachable_run, reachable_initial.
  - apply nth_In. vm_compute. constructor.
Defined.

End StoreFacts.
